(** * The symbolic tracer of torchdynamo/symbolic_convert.py

    A shallow embedding of [InstructionTracer], [convert_frame_assert] and
    [convert_frame], followed by the properties of the frame-capture
    orchestrator, the placeholder ordering, the guard accumulation, the
    fail-closed dispatch, the individual handlers and the termination of
    forward-jumping instruction streams. *)

From Stdlib Require Import ZArith Lia.
From stdpp Require Import base strings list gmap sets pretty sorting.

Open Scope string_scope.
Open Scope list_scope.
Open Scope nat_scope.

Set Warnings "-register-all,-clear-no-such-hyp".

(** ** Python values *)

(** Literal constants: what [LOAD_CONST] carries and what a decoded operand
    ([inst.argval]) can be. *)
Inductive PyConst :=
| CNone
| CBool (b : bool)
| CInt (z : Z)
| CStr (s : string)
| CTuple (items : list PyConst).

(** Concrete objects bound in [f_locals] and [f_globals]. [PyCompiled] is the
    [forward] of the GraphModule that RETURN_VALUE binds under a new name. *)
Inductive PyObj :=
| PyConstant (c : PyConst)
| PyTensor (id : nat)
| PyModule (id : nat) (training : bool)
| PyObject (id : nat)
| PyCompiled (name : string).

(** Python [bool] is a subclass of [int]: [range(True)], [True == 1]. *)
Definition as_int (c : PyConst) : option Z :=
  match c with
  | CInt z => Some z
  | CBool b => Some (Z.b2z b)
  | _ => None
  end.

(** Python [==] on constants (also the equality of dict keys). *)
Fixpoint py_eqb (a b : PyConst) : bool :=
  match a, b with
  | CNone, CNone => true
  | CStr s, CStr t => String.eqb s t
  | CTuple l, CTuple m =>
      (fix go (l m : list PyConst) : bool :=
         match l, m with
         | [], [] => true
         | x :: l', y :: m' => py_eqb x y && go l' m'
         | _, _ => false
         end) l m
  | _, _ =>
      match as_int a, as_int b with
      | Some x, Some y => Z.eqb x y
      | _, _ => false
      end
  end.

(** Truth value, as [not value.value] tests it. *)
Definition truthy (c : PyConst) : bool :=
  match c with
  | CNone => false
  | CBool b => b
  | CInt z => negb (Z.eqb z 0)
  | CStr s => negb (String.eqb s "")
  | CTuple l => negb (Nat.eqb (length l) 0)
  end.

(** [str(c)], used by the f-strings that build registry keys. Strings nested
    in a tuple are quoted without escapes. *)
Fixpoint py_repr (c : PyConst) : string :=
  match c with
  | CNone => "None"
  | CBool true => "True"
  | CBool false => "False"
  | CInt z => pretty z
  | CStr s => "'" +:+ s +:+ "'"
  | CTuple l =>
      match l with
      | [] => "()"
      | [x] => "(" +:+ py_repr x +:+ ",)"
      | x :: l' =>
          "(" +:+ py_repr x +:+
          (fix go (l : list PyConst) : string :=
             match l with
             | [] => ")"
             | y :: l'' => ", " +:+ py_repr y +:+ go l''
             end) l'
      end
  end.

Definition py_str (c : PyConst) : string :=
  match c with
  | CStr s => s
  | _ => py_repr c
  end.

(** [len(c)] and iteration, for the constants that support them. *)
Definition py_iter (c : PyConst) : option (list PyConst) :=
  match c with
  | CTuple l => Some l
  | CStr s => Some ((λ a, CStr (String a EmptyString)) <$> String.list_ascii_of_string s)
  | _ => None
  end.

(** Slice bounds: a negative index counts from the end, everything is clamped
    to the list. *)
Definition slice_index (len : nat) (i : Z) : nat :=
  if (i <? 0)%Z then Z.to_nat (Z.max 0 (Z.of_nat len + i))
  else Nat.min len (Z.to_nat i).

(** [l[:i]] and [l[i:]]. *)
Definition slice_to {A} (i : Z) (l : list A) : list A :=
  take (slice_index (length l) i) l.
Definition slice_from {A} (i : Z) (l : list A) : list A :=
  drop (slice_index (length l) i) l.

(** [s.split(".")] *)
Fixpoint split_dot_aux (cur : string) (s : string) : list string :=
  match s with
  | EmptyString => [cur]
  | String a s' =>
      if Ascii.eqb a (Ascii.ascii_of_nat 46) then cur :: split_dot_aux "" s'
      else split_dot_aux (cur +:+ String a EmptyString) s'
  end.
Definition split_dot (s : string) : list string := split_dot_aux "" s.

(** ** Insertion-ordered dictionaries *)

Section dict.
Context {K V : Type} (eqb : K → K → bool).

Fixpoint dict_get (k : K) (d : list (K * V)) : option V :=
  match d with
  | [] => None
  | (k', v) :: d' => if eqb k' k then Some v else dict_get k d'
  end.

(** [d[k] = v]: an existing key keeps its position. *)
Fixpoint dict_set (k : K) (v : V) (d : list (K * V)) : list (K * V) :=
  match d with
  | [] => [(k, v)]
  | (k', v') :: d' =>
      if eqb k' k then (k', v) :: d' else (k', v') :: dict_set k v d'
  end.

(** [dict(pairs)] *)
Definition dict_of_pairs (l : list (K * V)) : list (K * V) :=
  fold_left (λ d kv, dict_set kv.1 kv.2 d) l [].
End dict.

(** ** Exceptions and results *)

Inductive exn :=
| NotImplementedError (msg : string)
| AssertionError
| KeyError
| IndexError
| AttributeError
| TypeError
| TraceError.

Inductive result (A : Type) :=
| Ok (a : A)
| Raise (e : exn).
Arguments Ok {A} a.
Arguments Raise {A} e.

(** ** Guards *)

(** Modelled from the spec: Guard, GuardSource and GuardRequirement of
    guards.py, which is not among the sources: a guard is the triple of a
    binding name, its origin and a requirement kind, compared by value
    (sections 3 and 4.2). The members are those that symbolic_convert.py
    names. *)
Inductive GuardSource := LOCAL | GLOBAL.
Inductive GuardRequirement := TYPE_MATCH | VALUE_MATCH | FUNCTION_MATCH.

Record Guard := mkGuard {
  guard_name : string;
  guard_source : GuardSource;
  guard_requirement : GuardRequirement;
}.

#[global] Instance GuardSource_eq_dec : EqDecision GuardSource.
Proof. solve_decision. Defined.
#[global] Instance GuardRequirement_eq_dec : EqDecision GuardRequirement.
Proof. solve_decision. Defined.
#[global] Instance Guard_eq_dec : EqDecision Guard.
Proof. solve_decision. Defined.

Definition GuardSource_code (s : GuardSource) : nat :=
  match s with LOCAL => 0 | GLOBAL => 1 end.
Definition GuardSource_decode (n : nat) : GuardSource :=
  match n with 0 => LOCAL | _ => GLOBAL end.
Definition GuardRequirement_code (r : GuardRequirement) : nat :=
  match r with TYPE_MATCH => 0 | VALUE_MATCH => 1 | FUNCTION_MATCH => 2 end.
Definition GuardRequirement_decode (n : nat) : GuardRequirement :=
  match n with 0 => TYPE_MATCH | 1 => VALUE_MATCH | _ => FUNCTION_MATCH end.

#[global] Instance Guard_countable : Countable Guard.
Proof.
  refine (inj_countable'
            (λ g, (guard_name g, GuardSource_code (guard_source g),
                   GuardRequirement_code (guard_requirement g)))
            (λ t, mkGuard t.1.1 (GuardSource_decode t.1.2)
                          (GuardRequirement_decode t.2)) _).
  by intros [? [] []].
Defined.

(** ** The dataflow graph (torch.fx) *)

Inductive SeqKind := KList | KTuple | KSlice.

(** What a graph node refers to: an attribute path or a name, a concrete
    callable, or one of Python's operators. *)
Inductive Target :=
| TName (s : string)
| TObject (o : PyObj)
| TOperator (s : string).

(** Node arguments: references to other nodes, literals and sequences. *)
Inductive Arg :=
| ArgNode (id : nat)
| ArgConst (c : PyConst)
| ArgSeq (kind : SeqKind) (items : list Arg).

Record Node := mkNode {
  node_id : nat;
  node_op : string;
  node_target : Target;
  node_args : list Arg;
  node_kwargs : list (PyConst * Arg);
}.

(** The graph is its node list, in graph order. A node object is identified
    by its position. *)
Definition Graph := list Node.

Definition is_placeholder (n : Node) : bool :=
  String.eqb (node_op n) "placeholder".

(** [[n for n in self.graph.nodes if n.op == "placeholder"]] *)
Definition placeholders (g : Graph) : list Node := List.filter is_placeholder g.
Arguments placeholders : simpl never.

(** Position of [placeholders[-1]] in the graph. *)
Fixpoint last_placeholder (g : Graph) : option nat :=
  match g with
  | [] => None
  | n :: g' =>
      match last_placeholder g' with
      | Some i => Some (S i)
      | None => if is_placeholder n then Some 0 else None
      end
  end.

(** [graph.inserting_after(g[i])] followed by one node creation. *)
Definition insert_after (i : nat) (n : Node) (g : Graph) : Graph :=
  take (S i) g ++ n :: drop (S i) g.

(** [graph.inserting_before(None)]: the insertion point is the very front. *)
Definition insert_front (n : Node) (g : Graph) : Graph := n :: g.

(** ** Symbolic values *)

(** Modelled from the spec: TracingSupported of variable_tracker.py, which is
    not among the sources. The tracer names UNKNOWN and YES; NO is the
    unsupported state of section 4.1. *)
Inductive TracingSupported := UNKNOWN | YES | NO.

Record Options := mkOptions {
  opt_state : TracingSupported;
  opt_guards : gset Guard;
}.

(** Modelled from the spec: the classes of variable_tracker.py, which is not
    among the sources, with the fields that symbolic_convert.py passes to
    their constructors and reads back; every variant carries a support state
    and a guard set (section 3). A tuple and a slice are containers like a
    list (section 3), so TupleVariable and SliceVariable are [ListVariable]s
    of another kind. [RawNone] is the bare [None] that LOAD_METHOD pushes: it
    is not a VariableTracker and has no attributes. *)
Inductive VariableTracker :=
| ConstantVariable (value : PyConst) (state : TracingSupported) (guards : gset Guard)
| TensorVariable (proxy : nat) (state : TracingSupported) (guards : gset Guard)
| NNModuleVariable (key : string) (state : TracingSupported) (guards : gset Guard)
| GetAttrVariable (obj : VariableTracker) (name : PyConst)
                  (state : TracingSupported) (guards : gset Guard)
| ListVariable (kind : SeqKind) (items : list VariableTracker)
               (state : TracingSupported) (guards : gset Guard)
| ConstDictVariable (items : list (PyConst * VariableTracker))
                    (state : TracingSupported) (guards : gset Guard)
| AllowedFunctionOrModuleVariable (value : PyObj)
                                  (state : TracingSupported) (guards : gset Guard)
| RawNone.

Definition vt_guards (v : VariableTracker) : gset Guard :=
  match v with
  | ConstantVariable _ _ g | TensorVariable _ _ g | NNModuleVariable _ _ g
  | GetAttrVariable _ _ _ g | ListVariable _ _ _ g | ConstDictVariable _ _ g
  | AllowedFunctionOrModuleVariable _ _ g => g
  | RawNone => ∅
  end.

Definition vt_state (v : VariableTracker) : TracingSupported :=
  match v with
  | ConstantVariable _ s _ | TensorVariable _ s _ | NNModuleVariable _ s _
  | GetAttrVariable _ _ s _ | ListVariable _ _ s _ | ConstDictVariable _ s _
  | AllowedFunctionOrModuleVariable _ s _ => s
  | RawNone => UNKNOWN
  end.

(** [type(v).__name__] *)
Definition class_name (v : VariableTracker) : string :=
  match v with
  | ConstantVariable _ _ _ => "ConstantVariable"
  | TensorVariable _ _ _ => "TensorVariable"
  | NNModuleVariable _ _ _ => "NNModuleVariable"
  | GetAttrVariable _ _ _ _ => "GetAttrVariable"
  | ListVariable KList _ _ _ => "ListVariable"
  | ListVariable KTuple _ _ _ => "TupleVariable"
  | ListVariable KSlice _ _ _ => "SliceVariable"
  | ConstDictVariable _ _ _ => "ConstDictVariable"
  | AllowedFunctionOrModuleVariable _ _ _ => "AllowedFunctionOrModuleVariable"
  | RawNone => "NoneType"
  end.

Definition is_VariableTracker (v : VariableTracker) : bool :=
  match v with RawNone => false | _ => true end.

(** The classes [VariableTracker.combine_type] can answer with. *)
Inductive VarClass :=
| ClsConstant | ClsTensor | ClsNNModule | ClsGetAttr
| ClsSeq (kind : SeqKind) | ClsConstDict | ClsAllowed.

Definition VarClass_name (c : VarClass) : string :=
  match c with
  | ClsConstant => "ConstantVariable"
  | ClsTensor => "TensorVariable"
  | ClsNNModule => "NNModuleVariable"
  | ClsGetAttr => "GetAttrVariable"
  | ClsSeq KList => "ListVariable"
  | ClsSeq KTuple => "TupleVariable"
  | ClsSeq KSlice => "SliceVariable"
  | ClsConstDict => "ConstDictVariable"
  | ClsAllowed => "AllowedFunctionOrModuleVariable"
  end.

(** [issubclass(cls, TensorVariable)] *)
Definition is_tensor_class (c : VarClass) : bool :=
  match c with ClsTensor => true | _ => false end.

(** ** Instructions, code objects and frames *)

(** Modelled from the spec: Instruction of bytecode_transformation.py, which
    is not among the sources: an opcode name, the raw and the decoded operand
    and an optional jump target (section 3). [target] is the position of the
    jump-target instruction in the decoded stream: the tracer's [indexof]
    table maps the identity of each instruction to that position. [None], or
    a position outside the stream, is a target that [indexof] does not
    know. *)
Record Instruction := mkInstruction {
  opname : string;
  arg : option nat;
  argval : PyConst;
  target : option nat;
}.

(** The entries of the [code_options] dictionary that the tracer uses. *)
Record CodeOptions := mkCodeOptions {
  co_names : list string;
  co_varnames : list string;
  co_stacksize : nat;
}.

Record Code := mkCode {
  co_filename : string;
  co_instructions : list Instruction;
  co_options : CodeOptions;
}.

Record Frame := mkFrame {
  frame_code : Code;
  frame_locals : gmap string PyObj;
  frame_globals : gmap string PyObj;
  frame_builtins : gmap string PyObj;
}.

(** Modelled from the spec: GuardedCode of guards.py, which is not among the
    sources: the code handed back to the host and its guard set
    (section 4.6). *)
Record GuardedCode := mkGuardedCode {
  gc_code : Code;
  gc_guards : gset Guard;
}.

(** Modelled from the spec: [GuardedCode(code)] of guards.py, which is not
    among the sources; without a guard set the result carries the empty one
    (section 4.6: leave code unmodified, empty guard set). *)
Definition GuardedCode_unguarded (code : Code) : GuardedCode :=
  mkGuardedCode code ∅.

(** Modelled from the spec: [create_instruction] of bytecode_transformation.py,
    which is not among the sources; it builds the instruction for an opcode
    name and its operand, the decoded operand defaulting to the raw one. *)
Definition create_instruction (name : string) (a : option nat)
    (av : option PyConst) : Instruction :=
  mkInstruction name a
    (match av, a with
     | Some v, _ => v
     | None, Some n => CInt (Z.of_nat n)
     | None, None => CNone
     end) None.

(** ** Collaborators

    What the tracer takes from the modules beside symbolic_convert.py:
    the allow-list, Python's reflection on concrete objects, the helpers of
    variable_tracker.py, and the process-wide name generator. Every property
    below holds for all of them. *)
Class Collaborators := {
  (** [allowed_functions.is_allowed] *)
  is_allowed : PyObj → bool;
  (** [obj.__class__] *)
  class_of : PyObj → PyObj;
  (** [type(obj).__name__] *)
  type_name : PyObj → string;
  (** [getattr(obj, name)]; [None] when it raises AttributeError *)
  py_getattr : PyObj → string → option PyObj;
  (** the [__self__] assertion of [call_function] holds for this callable *)
  bound_self_ok : PyObj → bool;
  (** [VariableTracker.propagate], with the constructor defaults filled in *)
  propagate : list VariableTracker → result Options;
  (** [VariableTracker.combine_type] *)
  combine_type : list VariableTracker → result VarClass;
  (** [v.as_proxy()] *)
  as_proxy : VariableTracker → result Arg;
  (** the [state] a VariableTracker gets when none is passed *)
  default_state : TracingSupported;
  (** whether torch.fx records this operator when applied to proxies *)
  operator_traceable : string → bool;
  (** [bytecode_transformation.unique_id] at the time RETURN_VALUE calls it *)
  unique_id : string → string;
  (** [bytecode_transformation.debug_checks] *)
  debug_checks : Code → result unit;
}.

(** ** The tracer *)

Inductive GraphArg :=
| LocalArg (name : string)
| GlobalArg (name : string).

Record InstructionTracer := mkTracer {
  graph : Graph;
  instructions : list Instruction;
  (** the head of the list is the top of the stack (the end of the Python list) *)
  stack : list VariableTracker;
  f_globals : gmap string PyObj;
  f_builtins : gmap string PyObj;
  instruction_pointer : nat;
  cnt : nat;
  graphargs : list GraphArg;
  code_options : CodeOptions;
  nn_modules : list (string * PyObj);
  guards : gset Guard;
  symbolic_locals : list (PyConst * VariableTracker);
}.

Definition set_graph (g : Graph) (s : InstructionTracer) : InstructionTracer :=
  mkTracer g (instructions s) (stack s) (f_globals s) (f_builtins s)
    (instruction_pointer s) (cnt s) (graphargs s) (code_options s)
    (nn_modules s) (guards s) (symbolic_locals s).
Definition set_instructions (l : list Instruction) (s : InstructionTracer) : InstructionTracer :=
  mkTracer (graph s) l (stack s) (f_globals s) (f_builtins s)
    (instruction_pointer s) (cnt s) (graphargs s) (code_options s)
    (nn_modules s) (guards s) (symbolic_locals s).
Definition set_stack (st : list VariableTracker) (s : InstructionTracer) : InstructionTracer :=
  mkTracer (graph s) (instructions s) st (f_globals s) (f_builtins s)
    (instruction_pointer s) (cnt s) (graphargs s) (code_options s)
    (nn_modules s) (guards s) (symbolic_locals s).
Definition set_f_globals (m : gmap string PyObj) (s : InstructionTracer) : InstructionTracer :=
  mkTracer (graph s) (instructions s) (stack s) m (f_builtins s)
    (instruction_pointer s) (cnt s) (graphargs s) (code_options s)
    (nn_modules s) (guards s) (symbolic_locals s).
Definition set_instruction_pointer (i : nat) (s : InstructionTracer) : InstructionTracer :=
  mkTracer (graph s) (instructions s) (stack s) (f_globals s) (f_builtins s)
    i (cnt s) (graphargs s) (code_options s)
    (nn_modules s) (guards s) (symbolic_locals s).
Definition set_cnt (n : nat) (s : InstructionTracer) : InstructionTracer :=
  mkTracer (graph s) (instructions s) (stack s) (f_globals s) (f_builtins s)
    (instruction_pointer s) n (graphargs s) (code_options s)
    (nn_modules s) (guards s) (symbolic_locals s).
Definition set_graphargs (l : list GraphArg) (s : InstructionTracer) : InstructionTracer :=
  mkTracer (graph s) (instructions s) (stack s) (f_globals s) (f_builtins s)
    (instruction_pointer s) (cnt s) l (code_options s)
    (nn_modules s) (guards s) (symbolic_locals s).
Definition set_code_options (c : CodeOptions) (s : InstructionTracer) : InstructionTracer :=
  mkTracer (graph s) (instructions s) (stack s) (f_globals s) (f_builtins s)
    (instruction_pointer s) (cnt s) (graphargs s) c
    (nn_modules s) (guards s) (symbolic_locals s).
Definition set_nn_modules (m : list (string * PyObj)) (s : InstructionTracer) : InstructionTracer :=
  mkTracer (graph s) (instructions s) (stack s) (f_globals s) (f_builtins s)
    (instruction_pointer s) (cnt s) (graphargs s) (code_options s)
    m (guards s) (symbolic_locals s).
Definition set_guards (g : gset Guard) (s : InstructionTracer) : InstructionTracer :=
  mkTracer (graph s) (instructions s) (stack s) (f_globals s) (f_builtins s)
    (instruction_pointer s) (cnt s) (graphargs s) (code_options s)
    (nn_modules s) g (symbolic_locals s).
Definition set_symbolic_locals (l : list (PyConst * VariableTracker)) (s : InstructionTracer) : InstructionTracer :=
  mkTracer (graph s) (instructions s) (stack s) (f_globals s) (f_builtins s)
    (instruction_pointer s) (cnt s) (graphargs s) (code_options s)
    (nn_modules s) (guards s) l.

(** *** The monad of the handlers: tracer state and exceptions

    An exception discards the state: the tracer of an aborted trace is never
    looked at again. *)
Definition M (A : Type) : Type := InstructionTracer → result (A * InstructionTracer).

Definition ret {A} (a : A) : M A := λ s, Ok (a, s).
Definition bind {A B} (m : M A) (k : A → M B) : M B :=
  λ s, match m s with
       | Ok (a, s') => k a s'
       | Raise e => Raise e
       end.
Definition raise {A} (e : exn) : M A := λ _, Raise e.
Definition lift {A} (r : result A) : M A :=
  λ s, match r with Ok a => Ok (a, s) | Raise e => Raise e end.
Definition gets {A} (f : InstructionTracer → A) : M A := λ s, Ok (f s, s).
Definition modify (f : InstructionTracer → InstructionTracer) : M unit :=
  λ s, Ok (tt, f s).
Definition assert (b : bool) : M unit :=
  if b then ret tt else raise AssertionError.
Definition or_raise {A} (e : exn) (o : option A) : M A :=
  match o with Some a => ret a | None => raise e end.

Notation "x <- m ;; k" := (bind m (λ x, k))
  (at level 100, m at next level, right associativity).
Notation "m ;;; k" := (bind m (λ _, k))
  (at level 100, right associativity).

Fixpoint mapM_result {A B} (f : A → result B) (l : list A) : result (list B) :=
  match l with
  | [] => Ok []
  | x :: l' =>
      match f x with
      | Raise e => Raise e
      | Ok y => match mapM_result f l' with
                | Raise e => Raise e
                | Ok ys => Ok (y :: ys)
                end
      end
  end.

Fixpoint index_of (x : string) (l : list string) : option nat :=
  match l with
  | [] => None
  | y :: l' => if String.eqb y x then Some 0 else S <$> index_of x l'
  end.

Section tracer.
Context `{Collaborators}.

(** [unimplemented(name)]; the process-wide [counters] are statistics only
    and are left out. *)
Definition unimplemented {A} (name : string) : M A :=
  raise (NotImplementedError name).

(** [next(self.cnt)] *)
Definition next_cnt : M nat :=
  n <- gets cnt;;
  modify (set_cnt (S n));;;
  ret n.

(** [inst.argval] where the code needs an integer ([range(n)], [n * 2]) *)
Definition int_operand (inst : Instruction) : M Z :=
  or_raise TypeError (as_int (argval inst)).

Definition create_load_fast (name : string) : M Instruction :=
  co <- gets code_options;;
  (* assert name in co_varnames, then co_varnames.index(name) *)
  i <- or_raise AssertionError (index_of name (co_varnames co));;
  ret (create_instruction "LOAD_FAST" (Some i) (Some (CStr name))).

Definition create_load_global (name : string) : M Instruction :=
  co <- gets code_options;;
  i <- or_raise AssertionError (index_of name (co_names co));;
  ret (create_instruction "LOAD_GLOBAL" (Some i) (Some (CStr name))).

(** [arg.load(tracer)] of LocalArg and GlobalArg *)
Definition GraphArg_load (a : GraphArg) : M Instruction :=
  match a with
  | LocalArg name => create_load_fast name
  | GlobalArg name => create_load_global name
  end.

(** torch.fx: outside an insertion context a new node goes to the end of
    the graph. The result is the reference to the node. *)
Definition create_node (op : string) (tgt : Target) (args : list Arg)
    (kwargs : list (PyConst * Arg)) : M nat :=
  g <- gets graph;;
  modify (set_graph (g ++ [mkNode (length g) op tgt args kwargs]));;;
  ret (length g).

Definition create_proxy := create_node.

Definition create_graph_input (name : string) : M nat :=
  g <- gets graph;;
  n <- next_cnt;;
  let node := mkNode (length g) "placeholder"
                (TName (name +:+ "_" +:+ pretty n)) [] [] in
  modify (set_graph
            match last_placeholder g with
            | Some i => insert_after i node g
            | None => insert_front node g
            end);;;
  ret (length g).

Definition wrap_local (name : string) (value : PyObj) : M VariableTracker :=
  match value with
  | PyTensor _ =>
      modify (λ s, set_graphargs (graphargs s ++ [LocalArg name]) s);;;
      p <- create_graph_input name;;
      ret (TensorVariable p YES {[ mkGuard name LOCAL TYPE_MATCH ]})
  | PyModule _ _ =>
      n <- next_cnt;;
      let key := name +:+ "_" +:+ pretty n in
      modify (λ s, set_nn_modules (dict_set String.eqb key value (nn_modules s)) s);;;
      ret (NNModuleVariable key YES {[ mkGuard name LOCAL VALUE_MATCH ]})
  | PyConstant (CBool _ as c) | PyConstant (CNone as c) =>
      ret (ConstantVariable c default_state {[ mkGuard name LOCAL VALUE_MATCH ]})
  | _ => unimplemented ("wrap_local: " +:+ type_name value)
  end.

Definition push (val : VariableTracker) : M unit :=
  modify (λ s, set_stack (val :: stack s) s).

Definition pop : M VariableTracker :=
  λ s, match stack s with
       | [] => Raise IndexError
       | v :: st => Ok (v, set_stack st s)
       end.

(** [[self.pop() for _ in range(n)]] *)
Fixpoint pop_times (n : nat) : M (list VariableTracker) :=
  match n with
  | 0 => ret []
  | S n' => v <- pop;; l <- pop_times n';; ret (v :: l)
  end.

Definition popn (n : Z) : M (list VariableTracker) :=
  l <- pop_times (Z.to_nat n);;
  ret (rev l).

Fixpoint push_each (l : list VariableTracker) : M unit :=
  match l with
  | [] => ret tt
  | v :: l' => push v;;; push_each l'
  end.

(** [v.guards] and [v.state]: the bare [None] has neither. *)
Definition get_guards (v : VariableTracker) : M (gset Guard) :=
  if is_VariableTracker v then ret (vt_guards v) else raise AttributeError.
Definition get_state (v : VariableTracker) : M TracingSupported :=
  if is_VariableTracker v then ret (vt_state v) else raise AttributeError.

Definition get_submodule (keys : string) : M PyObj :=
  assert (negb (String.eqb keys ""));;;
  match split_dot keys with
  | [] => raise KeyError
  | k :: ks =>
      (* the first component is looked up in the registry dict, the others
         are attributes of the object found *)
      mods <- gets nn_modules;;
      obj <- or_raise KeyError (dict_get String.eqb k mods);;
      (fix walk (obj : PyObj) (ks : list string) : M PyObj :=
         match ks with
         | [] => ret obj
         | k' :: ks' =>
             obj' <- or_raise AttributeError (py_getattr obj k');;
             walk obj' ks'
         end) obj ks
  end.

Definition as_proxy_kwargs (kwargs : list (PyConst * VariableTracker))
    : result (list (PyConst * Arg)) :=
  mapM_result (λ kv, match as_proxy kv.2 with
                     | Ok a => Ok (kv.1, a)
                     | Raise e => Raise e
                     end) kwargs.

Definition call_function (fn : VariableTracker) (args : list VariableTracker)
    (kwargs : list (PyConst * VariableTracker)) : M unit :=
  match fn with
  | AllowedFunctionOrModuleVariable value _ _ =>
      options <- lift (propagate (fn :: args ++ kwargs.*2));;
      assert (bound_self_ok value);;;
      proxy_args <- lift (mapM_result as_proxy args);;
      proxy_kwargs <- lift (as_proxy_kwargs kwargs);;
      p <- create_proxy "call_function" (TObject value) proxy_args proxy_kwargs;;
      push (TensorVariable p (opt_state options) (opt_guards options))
  | GetAttrVariable obj name _ _ =>
      let args := obj :: args in
      options <- lift (propagate (fn :: args ++ kwargs.*2));;
      proxy_args <- lift (mapM_result as_proxy args);;
      proxy_kwargs <- lift (as_proxy_kwargs kwargs);;
      p <- create_proxy "call_method" (TName (py_str name)) proxy_args proxy_kwargs;;
      push (TensorVariable p (opt_state options) (opt_guards options))
  | NNModuleVariable key _ _ =>
      mod_ <- get_submodule key;;
      if is_allowed (class_of mod_) then
        options <- lift (propagate (fn :: args));;
        proxy_args <- lift (mapM_result as_proxy args);;
        p <- create_proxy "call_module" (TName key) proxy_args [];;
        push (TensorVariable p (opt_state options) (opt_guards options))
      else unimplemented "call custom module"
  | _ => unimplemented "call_function"
  end.

(** [stack_op(fn)]: [op] names the operator that the lambda applies and
    [nargs] is the number of its parameters. *)
Definition stack_op (op : string) (nargs : nat) (inst : Instruction) : M unit :=
  inputs <- popn (Z.of_nat nargs);;
  cls <- lift (combine_type inputs);;
  options <- lift (propagate inputs);;
  if is_tensor_class cls then
    proxies <- lift (mapM_result as_proxy inputs);;
    p <- (if operator_traceable op
          then create_proxy "call_function" (TOperator op) proxies []
          else raise TraceError);;
    push (TensorVariable p (opt_state options) (opt_guards options))
  else unimplemented ("stack_op " +:+ VarClass_name cls).

Definition LOAD_FAST (inst : Instruction) : M unit :=
  locals <- gets symbolic_locals;;
  v <- or_raise KeyError (dict_get py_eqb (argval inst) locals);;
  push v.

Definition STORE_FAST (inst : Instruction) : M unit :=
  v <- pop;;
  modify (λ s, set_symbolic_locals
                 (dict_set py_eqb (argval inst) v (symbolic_locals s)) s).

Definition LOAD_CONST (inst : Instruction) : M unit :=
  push (ConstantVariable (argval inst) UNKNOWN ∅).

Definition load_builtin (inst : Instruction) : M unit :=
  builtins <- gets f_builtins;;
  match argval inst with
  | CStr name =>
      assert (bool_decide (is_Some (builtins !! name)));;;
      unimplemented ("load_builtin: " +:+ name)
  | _ => raise AssertionError
  end.

Definition LOAD_GLOBAL (inst : Instruction) : M unit :=
  globals <- gets f_globals;;
  match argval inst with
  | CStr name =>
      match globals !! name with
      | None => load_builtin inst
      | Some value =>
          if is_allowed value then
            push (AllowedFunctionOrModuleVariable value YES
                    {[ mkGuard name GLOBAL FUNCTION_MATCH ]})
          else
            match value with
            | PyTensor _ =>
                (* assert False, "TODO(jansel): need to debug a crash here";
                   the statements after it are never reached *)
                raise AssertionError
            | _ => unimplemented "LOAD_GLOBAL"
            end
      end
  | _ => load_builtin inst
  end.

Definition jump (inst : Instruction) : M unit :=
  instrs <- gets instructions;;
  match target inst with
  | Some t =>
      if bool_decide (t < length instrs) then modify (set_instruction_pointer t)
      else raise KeyError
  | None => raise KeyError
  end.

Definition POP_JUMP_IF_FALSE (inst : Instruction) : M unit :=
  value <- pop;;
  g <- get_guards value;;
  modify (λ s, set_guards (guards s ∪ g) s);;;
  match value with
  | ConstantVariable c _ _ =>
      if negb (truthy c) then jump inst else ret tt
  | _ => unimplemented ("POP_JUMP_IF_FALSE " +:+ class_name value)
  end.

Definition CALL_FUNCTION (inst : Instruction) : M unit :=
  n <- int_operand inst;;
  args <- popn n;;
  fn <- pop;;
  call_function fn args [].

Definition CALL_FUNCTION_EX (inst : Instruction) : M unit :=
  vars <-
    (if py_eqb (argval inst) (CInt 0) then
       argsvars <- pop;;
       ret (ConstDictVariable [] default_state ∅, argsvars)
     else if py_eqb (argval inst) (CInt 1) then
       kwargsvars <- pop;;
       argsvars <- pop;;
       ret (kwargsvars, argsvars)
     else unimplemented "CALL_FUNCTION_EX");;
  let '(kwargsvars, argsvars) := vars in
  fn <- pop;;
  match argsvars with
  | ListVariable _ items _ _ =>
      match kwargsvars with
      | ConstDictVariable kwitems _ _ => call_function fn items kwitems
      | _ => raise AssertionError
      end
  | _ => raise AssertionError
  end.

Definition CALL_FUNCTION_KW (inst : Instruction) : M unit :=
  argnames <- pop;;
  n <- int_operand inst;;
  args <- popn n;;
  fn <- pop;;
  match argnames with
  | ConstantVariable argnames _ _ =>
      names <- or_raise TypeError (py_iter argnames);;
      let k := Z.of_nat (length names) in
      let '(args, kwargs) := (slice_to (- k) args, slice_from (- k) args) in
      let kwargs := dict_of_pairs py_eqb (zip names kwargs) in
      assert (Nat.eqb (length kwargs) (length names));;;
      call_function fn args kwargs
  | _ => raise AssertionError
  end.

Definition LOAD_ATTR (inst : Instruction) : M unit :=
  obj <- pop;;
  let name := argval inst in
  options <- lift (propagate [obj]);;
  match obj with
  | NNModuleVariable okey _ _ =>
      let key := okey +:+ "." +:+ py_str name in
      subobj <- get_submodule key;;
      match subobj with
      | PyTensor _ =>
          p <- create_proxy "get_attr" (TName key) [] [];;
          push (TensorVariable p (opt_state options) (opt_guards options))
      | PyModule _ _ =>
          push (NNModuleVariable key (opt_state options) (opt_guards options))
      | _ => unimplemented ("nn.Module attr " +:+ type_name subobj)
      end
  | TensorVariable _ _ _ =>
      push (GetAttrVariable obj name (opt_state options) (opt_guards options))
  | AllowedFunctionOrModuleVariable value _ _ =>
      match name with
      | CStr attr =>
          v <- or_raise AttributeError (py_getattr value attr);;
          push (AllowedFunctionOrModuleVariable v (opt_state options) (opt_guards options))
      | _ => raise TypeError
      end
  | _ => unimplemented "LOAD_ATTR"
  end.

Definition LOAD_METHOD (inst : Instruction) : M unit :=
  LOAD_ATTR inst;;;
  push RawNone.

Definition CALL_METHOD (inst : Instruction) : M unit :=
  n <- int_operand inst;;
  args <- popn n;;
  dummy <- pop;;
  assert (negb (is_VariableTracker dummy));;;
  fn <- pop;;
  call_function fn args [].

Definition build_seq (kind : SeqKind) (inst : Instruction) : M unit :=
  n <- int_operand inst;;
  items <- popn n;;
  options <- lift (propagate items);;
  push (ListVariable kind items (opt_state options) (opt_guards options)).

Definition BUILD_TUPLE := build_seq KTuple.
Definition BUILD_SLICE := build_seq KSlice.
Definition BUILD_LIST := build_seq KList.

(** [l[::2]] *)
Fixpoint every_other {A} (l : list A) : list A :=
  match l with
  | [] => []
  | x :: l' => x :: match l' with
                    | [] => []
                    | _ :: l'' => every_other l''
                    end
  end.

(** the loop of BUILD_MAP *)
Fixpoint build_map (kvs : list (VariableTracker * VariableTracker))
    (result : list (PyConst * VariableTracker))
    : M (list (PyConst * VariableTracker)) :=
  match kvs with
  | [] => ret result
  | (k, v) :: kvs' =>
      match k with
      | ConstantVariable c _ _ => build_map kvs' (dict_set py_eqb c v result)
      | _ => raise AssertionError
      end
  end.

Definition BUILD_MAP (inst : Instruction) : M unit :=
  n <- int_operand inst;;
  items <- popn (n * 2);;
  options <- lift (propagate items);;
  result <- build_map (zip (every_other items) (every_other (drop 1 items))) [];;
  assert (Nat.eqb (2 * length result) (length items));;;
  push (ConstDictVariable result (opt_state options) (opt_guards options)).

Definition BUILD_CONST_KEY_MAP (inst : Instruction) : M unit :=
  keys <- pop;;
  n <- int_operand inst;;
  values <- popn n;;
  options <- lift (propagate (keys :: values));;
  match keys with
  | ConstantVariable (CTuple keys) _ _ =>
      assert (Nat.eqb (length keys) (length values));;;
      push (ConstDictVariable (dict_of_pairs py_eqb (zip keys values))
              (opt_state options) (opt_guards options))
  | _ => raise AssertionError
  end.

Definition UNPACK_SEQUENCE (inst : Instruction) : M unit :=
  seq <- pop;;
  match seq with
  | ListVariable _ items _ _ =>
      assert (py_eqb (CInt (Z.of_nat (length items))) (argval inst));;;
      push_each (rev items)
  | _ => unimplemented ("UNPACK_SEQUENCE " +:+ class_name seq)
  end.

(** [FakeRootModule.__init__]: the loop over the registry, with the
    [training] flag seen so far. *)
Fixpoint FakeRootModule (training : option bool) (mods : list (string * PyObj))
    : result unit :=
  match mods with
  | [] => Ok tt
  | (k, v) :: mods' =>
      let training2 := match v with PyModule _ t => Some t | _ => None end in
      match training, training2 with
      | Some a, Some b =>
          if Bool.eqb a b then FakeRootModule training2 mods'
          else Raise AssertionError
      | _, Some _ => FakeRootModule training2 mods'
      | _, None => FakeRootModule training mods'
      end
  end.

Fixpoint load_each (l : list GraphArg) : M (list Instruction) :=
  match l with
  | [] => ret []
  | a :: l' => i <- GraphArg_load a;; rest <- load_each l';; ret (i :: rest)
  end.

(** The rewriting half of RETURN_VALUE. Building and recompiling the
    GraphModule is the graph compiler's work and changes nothing here. *)
Definition RETURN_VALUE (inst : Instruction) : M unit :=
  rv <- pop;;
  st <- get_state rv;;
  match st with
  | YES =>
      match rv with
      | TensorVariable proxy _ _ =>
          create_node "output" (TName "output") [ArgNode proxy] [];;; ret tt
      | _ => unimplemented ("RETURN_VALUE " +:+ class_name rv)
      end;;;
      modify (λ s, set_guards (guards s ∪ vt_guards rv) s);;;
      mods <- gets nn_modules;;
      lift (FakeRootModule None mods);;;
      let name := unique_id "__translated_fn" in
      modify (λ s, set_f_globals (<[name := PyCompiled name]> (f_globals s)) s);;;
      modify (λ s, set_code_options
                     (mkCodeOptions (co_names (code_options s) ++ [name])
                        (co_varnames (code_options s))
                        (co_stacksize (code_options s))) s);;;
      modify (λ s, set_code_options
                     (mkCodeOptions (co_names (code_options s))
                        (co_varnames (code_options s))
                        (length (graphargs s) + 1)) s);;;
      load_fn <- create_load_global name;;
      gargs <- gets graphargs;;
      loads <- load_each gargs;;
      modify (set_instructions
                ([load_fn] ++ loads ++
                 [create_instruction "CALL_FUNCTION" (Some (length gargs)) None;
                  create_instruction "RETURN_VALUE" None None]))
  | _ => unimplemented "not traceable"
  end.

Definition NOP (inst : Instruction) : M unit := ret tt.

Definition POP_TOP (inst : Instruction) : M unit := pop;;; ret tt.

Definition ROT_TWO (inst : Instruction) : M unit :=
  a <- pop;; b <- pop;;
  push a;;; push b.

Definition ROT_THREE (inst : Instruction) : M unit :=
  a <- pop;; b <- pop;; c <- pop;;
  push a;;; push c;;; push b.

Definition ROT_FOUR (inst : Instruction) : M unit :=
  a <- pop;; b <- pop;; c <- pop;; d <- pop;;
  push a;;; push d;;; push c;;; push b.

Definition DUP_TOP (inst : Instruction) : M unit :=
  a <- pop;;
  push a;;; push a.

Definition DUP_TOP_TWO (inst : Instruction) : M unit :=
  a <- pop;; b <- pop;;
  push b;;; push a;;; push b;;; push a.

(** The operator handlers, all made by [stack_op]. *)
Definition stack_ops : list (string * (Instruction → M unit)) :=
  [ ("UNARY_POSITIVE", stack_op "pos" 1);
    ("UNARY_NEGATIVE", stack_op "neg" 1);
    ("UNARY_NOT", stack_op "not_" 1);
    ("UNARY_INVERT", stack_op "invert" 1);
    ("BINARY_POWER", stack_op "pow" 2);
    ("BINARY_MULTIPLY", stack_op "mul" 2);
    ("BINARY_MATRIX_MULTIPLY", stack_op "matmul" 2);
    ("BINARY_FLOOR_DIVIDE", stack_op "floordiv" 2);
    ("BINARY_TRUE_DIVIDE", stack_op "truediv" 2);
    ("BINARY_MODULO", stack_op "mod" 2);
    ("BINARY_ADD", stack_op "add" 2);
    ("BINARY_SUBTRACT", stack_op "sub" 2);
    ("BINARY_SUBSCR", stack_op "getitem" 2);
    ("BINARY_LSHIFT", stack_op "lshift" 2);
    ("BINARY_RSHIFT", stack_op "rshift" 2);
    ("BINARY_AND", stack_op "and_" 2);
    ("BINARY_XOR", stack_op "xor" 2);
    ("BINARY_OR", stack_op "or_" 2) ].

(** The handlers of the class that neither jump nor rewrite the stream. *)
Definition plain_handlers : list (string * (Instruction → M unit)) :=
  [ ("LOAD_FAST", LOAD_FAST);
    ("STORE_FAST", STORE_FAST);
    ("LOAD_CONST", LOAD_CONST);
    ("LOAD_GLOBAL", LOAD_GLOBAL);
    ("CALL_FUNCTION", CALL_FUNCTION);
    ("CALL_FUNCTION_EX", CALL_FUNCTION_EX);
    ("CALL_FUNCTION_KW", CALL_FUNCTION_KW);
    ("LOAD_METHOD", LOAD_METHOD);
    ("CALL_METHOD", CALL_METHOD);
    ("LOAD_ATTR", LOAD_ATTR);
    ("BUILD_TUPLE", BUILD_TUPLE);
    ("BUILD_SLICE", BUILD_SLICE);
    ("BUILD_LIST", BUILD_LIST);
    ("BUILD_MAP", BUILD_MAP);
    ("BUILD_CONST_KEY_MAP", BUILD_CONST_KEY_MAP);
    ("UNPACK_SEQUENCE", UNPACK_SEQUENCE);
    ("NOP", NOP);
    ("POP_TOP", POP_TOP);
    ("ROT_TWO", ROT_TWO);
    ("ROT_THREE", ROT_THREE);
    ("ROT_FOUR", ROT_FOUR);
    ("DUP_TOP", DUP_TOP);
    ("DUP_TOP_TWO", DUP_TOP_TWO) ] ++ stack_ops.

(** The opcode handlers: the methods of the class that carry the name of an
    opcode. [hasattr(self, inst.opname)] is membership in this table,
    [getattr(self, inst.opname)] the lookup. *)
Definition handlers : list (string * (Instruction → M unit)) :=
  [ ("POP_JUMP_IF_FALSE", POP_JUMP_IF_FALSE);
    ("RETURN_VALUE", RETURN_VALUE) ] ++ plain_handlers.

Definition handler_of (name : string) : option (Instruction → M unit) :=
  dict_get String.eqb name handlers.

Definition step : M bool :=
  s <- gets id;;
  inst <- or_raise IndexError (instructions s !! instruction_pointer s);;
  modify (set_instruction_pointer (S (instruction_pointer s)));;;
  match handler_of (opname inst) with
  | None => unimplemented ("missing: " +:+ opname inst)
  | Some handler => handler inst
  end;;;
  ret (negb (String.eqb (opname inst) "RETURN_VALUE")).

(** [run]: [while self.step(): pass]. The loop need not end, so the model
    counts the calls of [step]; [None] is a loop still running after [fuel]
    calls. *)
Fixpoint run (fuel : nat) (s : InstructionTracer) : option (result InstructionTracer) :=
  match fuel with
  | 0 => None
  | S fuel' =>
      match step s with
      | Raise e => Some (Raise e)
      | Ok (true, s') => run fuel' s'
      | Ok (false, s') => Some (Ok s')
      end
  end.

(** The dict comprehension of [__init__]: one [wrap_local] per name of
    [co_varnames] that is bound in [f_locals]. *)
Fixpoint wrap_locals (f_locals : gmap string PyObj) (names : list string)
    (acc : list (PyConst * VariableTracker))
    : M (list (PyConst * VariableTracker)) :=
  match names with
  | [] => ret acc
  | k :: names' =>
      match f_locals !! k with
      | Some value =>
          v <- wrap_local k value;;
          wrap_locals f_locals names' (dict_set py_eqb (CStr k) v acc)
      | None => wrap_locals f_locals names' acc
      end
  end.

(** [InstructionTracer.__init__] *)
Definition InstructionTracer_init (instrs : list Instruction)
    (f_locals globals builtins : gmap string PyObj) (co : CodeOptions)
    : result InstructionTracer :=
  let s0 := mkTracer [] instrs [] globals builtins 0 0 [] co [] ∅ [] in
  match wrap_locals f_locals (co_varnames co) [] s0 with
  | Raise e => Raise e
  | Ok (locals, s) => Ok (set_symbolic_locals locals s)
  end.

(** The [transform] closure of [convert_frame_assert]: build the tracer and
    run it. The tracer it returns carries the rewritten instructions, the
    extended code options and the guards. *)
Definition transform (fuel : nat) (frame : Frame) (instrs : list Instruction)
    (co : CodeOptions) : option (result InstructionTracer) :=
  match InstructionTracer_init instrs (frame_locals frame)
          (frame_globals frame) (frame_builtins frame) co with
  | Raise e => Some (Raise e)
  | Ok s => run fuel s
  end.

(** Modelled from the spec: [transform_code_object] of
    bytecode_transformation.py, which is not among the sources. It decodes
    the code object into the instruction stream and the metadata
    dictionary, hands both to the transformation and assembles a new code
    object from what the transformation left in them (section 6). *)
Definition transform_code_object (code : Code)
    (transformations : list Instruction → CodeOptions → option (result InstructionTracer))
    : option (result (Code * InstructionTracer)) :=
  match transformations (co_instructions code) (co_options code) with
  | None => None
  | Some (Raise e) => Some (Raise e)
  | Some (Ok tracer) =>
      Some (Ok (mkCode (co_filename code) (instructions tracer)
                  (code_options tracer), tracer))
  end.

Definition convert_frame_assert (fuel : nat) (frame : Frame)
    : option (result GuardedCode) :=
  let code := frame_code frame in
  if String.prefix "<eval_with_key>" (co_filename code) then
    Some (Ok (GuardedCode_unguarded code))
  else
    match debug_checks code with
    | Raise e => Some (Raise e)
    | Ok _ =>
        match transform_code_object code (transform fuel frame) with
        | None => None
        | Some (Raise e) => Some (Raise e)
        | Some (Ok (code', tracer)) =>
            Some (Ok (mkGuardedCode code' (guards tracer)))
        end
    end.

(** [convert_frame]: every constructor of [exn] is a subclass of
    [Exception], so the second handler takes whatever the first leaves. *)
Definition convert_frame (fuel : nat) (frame : Frame)
    : option (result GuardedCode) :=
  match convert_frame_assert fuel frame with
  | None => None
  | Some (Ok result) => Some (Ok result)
  | Some (Raise (NotImplementedError _)) =>
      Some (Ok (GuardedCode_unguarded (frame_code frame)))
  | Some (Raise _) =>
      (* logging.exception(...) *)
      Some (Ok (GuardedCode_unguarded (frame_code frame)))
  end.

End tracer.

(** ** A concrete set of collaborators

    One choice of the collaborators, to run the tracer on concrete frames. *)

Definition sample_type_name (o : PyObj) : string :=
  match o with
  | PyConstant CNone => "NoneType"
  | PyConstant (CBool _) => "bool"
  | PyConstant (CInt _) => "int"
  | PyConstant (CStr _) => "str"
  | PyConstant (CTuple _) => "tuple"
  | PyTensor _ => "Tensor"
  | PyModule _ _ => "Module"
  | PyObject _ => "object"
  | PyCompiled _ => "method"
  end.

(** Modelled from the spec: [combine_support_state] of section 4.1, which
    lives in variable_tracker.py, not among the sources: the least capable
    state among the inputs. Unsupported is below unknown, unknown below
    supported. *)
Definition combine_states (a b : TracingSupported) : TracingSupported :=
  match a, b with
  | NO, _ | _, NO => NO
  | UNKNOWN, _ | _, UNKNOWN => UNKNOWN
  | YES, YES => YES
  end.

(** Modelled from the spec: [VariableTracker.propagate] of variable_tracker.py,
    not among the sources: the state and the union of the guards of all
    inputs (section 4.1); with no input, the constructor defaults. *)
Definition sample_propagate (vars : list VariableTracker) : result Options :=
  if forallb is_VariableTracker vars then
    match vars with
    | [] => Ok (mkOptions UNKNOWN ∅)
    | v :: vars' =>
        Ok (mkOptions (fold_left combine_states (vt_state <$> vars') (vt_state v))
                      (fold_left (∪) (vt_guards <$> vars') (vt_guards v)))
    end
  else Raise AssertionError.

Definition class_of_var (v : VariableTracker) : option VarClass :=
  match v with
  | ConstantVariable _ _ _ => Some ClsConstant
  | TensorVariable _ _ _ => Some ClsTensor
  | NNModuleVariable _ _ _ => Some ClsNNModule
  | GetAttrVariable _ _ _ _ => Some ClsGetAttr
  | ListVariable k _ _ _ => Some (ClsSeq k)
  | ConstDictVariable _ _ _ => Some ClsConstDict
  | AllowedFunctionOrModuleVariable _ _ _ => Some ClsAllowed
  | RawNone => None
  end.

(** Modelled from the spec: [VariableTracker.combine_type] of
    variable_tracker.py, not among the sources: the operands of an operator
    must all be arrays, otherwise the kind of the offending one is named
    (section 4.4). *)
Fixpoint sample_combine_type (vars : list VariableTracker) : result VarClass :=
  match vars with
  | [] => Ok ClsConstant
  | v :: vars' =>
      match class_of_var v with
      | None => Raise AssertionError
      | Some ClsTensor =>
          match vars' with
          | [] => Ok ClsTensor
          | _ => sample_combine_type vars'
          end
      | Some c => Ok c
      end
  end.

(** Modelled from the spec: [as_proxy] of variable_tracker.py, not among the
    sources: graph arguments are references to nodes or literal constants
    (section 4.3). *)
Fixpoint sample_as_proxy (v : VariableTracker) : result Arg :=
  match v with
  | TensorVariable p _ _ => Ok (ArgNode p)
  | ConstantVariable c _ _ => Ok (ArgConst c)
  | ListVariable k items _ _ =>
      match mapM_result sample_as_proxy items with
      | Ok l => Ok (ArgSeq k l)
      | Raise e => Raise e
      end
  | _ => Raise (NotImplementedError "as_proxy")
  end.

Definition sample_collaborators : Collaborators := {|
  is_allowed := λ o, match o with PyObject n => Nat.even n | _ => false end;
  class_of := λ o, o;
  type_name := sample_type_name;
  py_getattr := λ _ _, None;
  bound_self_ok := λ _, true;
  propagate := sample_propagate;
  combine_type := sample_combine_type;
  as_proxy := sample_as_proxy;
  default_state := UNKNOWN;
  operator_traceable := λ _, true;
  unique_id := λ name, name +:+ "_0";
  debug_checks := λ _, Ok tt;
|}.

Definition op0 (name : string) : Instruction := mkInstruction name None CNone None.
Definition op_name (name operand : string) : Instruction :=
  mkInstruction name None (CStr operand) None.
Definition op_int (name : string) (n : nat) : Instruction :=
  mkInstruction name (Some n) (CInt (Z.of_nat n)) None.
Definition op_jump (name : string) (t : nat) : Instruction :=
  mkInstruction name (Some t) (CInt (Z.of_nat t)) (Some t).

Definition frame_of (file : string) (instrs : list Instruction)
    (names varnames : list string) (stacksize : nat)
    (locals globals : list (string * PyObj)) : Frame :=
  mkFrame (mkCode file instrs (mkCodeOptions names varnames stacksize))
    (list_to_map locals) (list_to_map globals) ∅.

(** [def f(x, y): return x + y] on two tensors *)
Definition frame_add : Frame :=
  frame_of "model.py"
    [op_name "LOAD_FAST" "x"; op_name "LOAD_FAST" "y"; op0 "BINARY_ADD"; op0 "RETURN_VALUE"]
    [] ["x"; "y"] 2 [("y", PyTensor 1); ("x", PyTensor 0)] [].

(** ** The vocabulary of the properties *)

(** What the handlers without a control effect leave alone: everything but
    the operand stack, the local bindings and the non-placeholder nodes of
    the graph. *)
Record frame_rel (s s' : InstructionTracer) : Prop := mkFrameRel {
  fr_instructions : instructions s' = instructions s;
  fr_pointer : instruction_pointer s' = instruction_pointer s;
  fr_guards : guards s' = guards s;
  fr_graphargs : graphargs s' = graphargs s;
  fr_code_options : code_options s' = code_options s;
  fr_cnt : cnt s' = cnt s;
  fr_nn_modules : nn_modules s' = nn_modules s;
  fr_f_globals : f_globals s' = f_globals s;
  fr_placeholders : placeholders (graph s') = placeholders (graph s);
}.

Definition frames {A} (m : M A) : Prop :=
  ∀ s a s', m s = Ok (a, s') → frame_rel s s'.

(** The instruction that loads a captured argument, as [arg.load] builds it. *)
Definition loads_arg (co : CodeOptions) (i : Instruction) (a : GraphArg) : Prop :=
  match a with
  | LocalArg name =>
      ∃ idx, index_of name (co_varnames co) = Some idx ∧
             i = create_instruction "LOAD_FAST" (Some idx) (Some (CStr name))
  | GlobalArg name =>
      ∃ idx, index_of name (co_names co) = Some idx ∧
             i = create_instruction "LOAD_GLOBAL" (Some idx) (Some (CStr name))
  end.

(** The effect of a conditional jump, from the state before the step. *)
Definition jump_effect (inst : Instruction) (s s' : InstructionTracer) : Prop :=
  ∃ c st g rest,
    stack s = ConstantVariable c st g :: rest ∧
    stack s' = rest ∧
    guards s' = guards s ∪ g ∧
    instructions s' = instructions s ∧
    graph s' = graph s ∧
    graphargs s' = graphargs s ∧
    code_options s' = code_options s ∧
    cnt s' = cnt s ∧
    symbolic_locals s' = symbolic_locals s ∧
    (if truthy c then instruction_pointer s' = S (instruction_pointer s)
     else target inst = Some (instruction_pointer s') ∧
          instruction_pointer s' < length (instructions s)).

(** The effect of a successful return, from the state before the step. *)
Definition return_effect `{Collaborators} (s s' : InstructionTracer) : Prop :=
  ∃ proxy g rest load_fn loads,
    let name := unique_id "__translated_fn" in
    stack s = TensorVariable proxy YES g :: rest ∧
    guards s' = guards s ∪ g ∧
    instruction_pointer s' = S (instruction_pointer s) ∧
    graphargs s' = graphargs s ∧
    placeholders (graph s') = placeholders (graph s) ∧
    code_options s' =
      mkCodeOptions (co_names (code_options s) ++ [name])
        (co_varnames (code_options s)) (length (graphargs s) + 1) ∧
    instructions s' =
      [load_fn] ++ loads ++
      [create_instruction "CALL_FUNCTION" (Some (length (graphargs s))) None;
       create_instruction "RETURN_VALUE" None None] ∧
    loads_arg (code_options s') load_fn (GlobalArg name) ∧
    Forall2 (loads_arg (code_options s')) loads (graphargs s).

(** Every jump target lies strictly after the instruction that names it. *)
Fixpoint forward_from (i : nat) (instrs : list Instruction) : bool :=
  match instrs with
  | [] => true
  | inst :: instrs' =>
      match target inst with
      | Some t => i <? t
      | None => true
      end && forward_from (S i) instrs'
  end.

Definition forward_jumps (instrs : list Instruction) : Prop :=
  forward_from 0 instrs = true.

(** The states in which [run] calls [step], up to the one whose step ends the
    loop. *)
Fixpoint visited `{Collaborators} (fuel : nat) (s : InstructionTracer)
    : list InstructionTracer :=
  match fuel with
  | 0 => []
  | S fuel' =>
      s :: match step s with
           | Ok (true, s') => visited fuel' s'
           | _ => []
           end
  end.

(** The value that the step from [s] pops first, when the instruction under
    the pointer is a [name]. *)
Definition popped_by (name : string) (s : InstructionTracer) : option VariableTracker :=
  match instructions s !! instruction_pointer s with
  | Some inst => if String.eqb (opname inst) name then head (stack s) else None
  | None => None
  end.

(** The guards of the value that a conditional jump at [s] pops. *)
Definition jump_guards (s : InstructionTracer) : gset Guard :=
  match popped_by "POP_JUMP_IF_FALSE" s with
  | Some v => vt_guards v
  | None => ∅
  end.

Definition GraphArg_name (a : GraphArg) : string :=
  match a with LocalArg name | GlobalArg name => name end.

(** The target of the placeholder made for [name] when the counter is at [n]. *)
Definition placeholder_target (name : string) (n : nat) : Target :=
  TName (name +:+ "_" +:+ pretty n).

(** The placeholders of the graph, in graph order, are the captured
    arguments, in the order of [graphargs], and the counter values [ns] in
    their names increase: graph order is creation order. *)
Definition arg_order_upto (c : nat) (g : Graph) (gargs : list GraphArg) : Prop :=
  ∃ ns, length ns = length gargs ∧
        StronglySorted lt ns ∧
        Forall (λ n, n < c) ns ∧
        node_target <$> placeholders g =
          zip_with (λ a n, placeholder_target (GraphArg_name a) n) gargs ns.

Definition arg_order (g : Graph) (gargs : list GraphArg) : Prop :=
  ∃ ns, length ns = length gargs ∧
        StronglySorted lt ns ∧
        node_target <$> placeholders g =
          zip_with (λ a n, placeholder_target (GraphArg_name a) n) gargs ns.

(** What the wrapping of the locals leaves alone. *)
Record init_rel (s s' : InstructionTracer) : Prop := mkInitRel {
  ir_instructions : instructions s' = instructions s;
  ir_pointer : instruction_pointer s' = instruction_pointer s;
  ir_stack : stack s' = stack s;
  ir_guards : guards s' = guards s;
  ir_code_options : code_options s' = code_options s;
  ir_cnt : cnt s ≤ cnt s';
}.

Definition str_keys {V} (d : list (PyConst * V)) : Prop :=
  Forall (λ kv, ∃ k, kv.1 = CStr k) d.

(** [init_of frame]: the tracer that [transform] builds for the frame. *)
Definition init_of `{Collaborators} (frame : Frame) : result InstructionTracer :=
  InstructionTracer_init (co_instructions (frame_code frame)) (frame_locals frame)
    (frame_globals frame) (frame_builtins frame) (co_options (frame_code frame)).

(** [advance k s]: the tracer after [k] steps that let the loop go on. *)
Fixpoint advance `{Collaborators} (k : nat) (s : InstructionTracer)
    : option InstructionTracer :=
  match k with
  | 0 => Some s
  | S k' =>
      match step s with
      | Ok (true, s') => advance k' s'
      | _ => None
      end
  end.

(** ** Sample frames and their traces *)

(** [def f(x): return x + x * x] on a tensor *)
Definition frame_poly : Frame :=
  frame_of "model.py"
    [op_name "LOAD_FAST" "x"; op_name "LOAD_FAST" "x"; op_name "LOAD_FAST" "x";
     op0 "BINARY_MULTIPLY"; op0 "BINARY_ADD"; op0 "RETURN_VALUE"]
    [] ["x"] 3 [("x", PyTensor 0)] [].

(** [def f(flag, x): return x + x if flag else x] with [flag = False] *)
Definition frame_branch : Frame :=
  frame_of "model.py"
    [op_name "LOAD_FAST" "flag"; op_jump "POP_JUMP_IF_FALSE" 6;
     op_name "LOAD_FAST" "x"; op_name "LOAD_FAST" "x"; op0 "BINARY_ADD"; op0 "RETURN_VALUE";
     op_name "LOAD_FAST" "x"; op0 "RETURN_VALUE"]
    [] ["flag"; "x"] 2 [("x", PyTensor 0); ("flag", PyConstant (CBool false))] [].

(** [def f(flag, x)] that returns [x] when [flag] holds and yields
    otherwise, with [flag = True]: the YIELD_VALUE is never stepped onto *)
Definition frame_guarded_yield : Frame :=
  frame_of "model.py"
    [op_name "LOAD_FAST" "flag"; op_jump "POP_JUMP_IF_FALSE" 4;
     op_name "LOAD_FAST" "x"; op0 "RETURN_VALUE";
     op_name "LOAD_FAST" "x"; op0 "YIELD_VALUE"; op0 "POP_TOP";
     op_name "LOAD_FAST" "x"; op0 "RETURN_VALUE"]
    [] ["flag"; "x"] 1 [("x", PyTensor 0); ("flag", PyConstant (CBool true))] [].

(** a generator: YIELD_VALUE has no handler *)
Definition frame_yield : Frame :=
  frame_of "model.py"
    [op_name "LOAD_FAST" "x"; op0 "YIELD_VALUE"; op0 "POP_TOP";
     op_name "LOAD_FAST" "x"; op0 "RETURN_VALUE"]
    [] ["x"] 1 [("x", PyTensor 0)] [].

(** [a, b = [1, 2, 3]] in a function that returns the tensor [x] *)
Definition frame_unpack : Frame :=
  frame_of "model.py"
    [mkInstruction "LOAD_CONST" (Some 1) (CInt 1) None;
     mkInstruction "LOAD_CONST" (Some 2) (CInt 2) None;
     mkInstruction "LOAD_CONST" (Some 3) (CInt 3) None;
     op_int "BUILD_LIST" 3; op_int "UNPACK_SEQUENCE" 2;
     op_name "STORE_FAST" "a"; op_name "STORE_FAST" "b";
     op_name "LOAD_FAST" "x"; op0 "RETURN_VALUE"]
    [] ["x"; "a"; "b"] 3 [("x", PyTensor 0)] [].

(** a module-level tensor [w], read by [def f(): return w] *)
Definition frame_global_tensor : Frame :=
  frame_of "model.py" [op_name "LOAD_GLOBAL" "w"; op0 "RETURN_VALUE"]
    ["w"] [] 1 [] [("w", PyTensor 7)].

Definition tracer_with (st : list VariableTracker) (globals : gmap string PyObj)
    : InstructionTracer :=
  mkTracer [] [] st globals ∅ 0 0 [] (mkCodeOptions [] [] 0) [] ∅ [].

Definition one_const : VariableTracker := ConstantVariable (CInt 1) UNKNOWN ∅.
Definition two_const : VariableTracker := ConstantVariable (CInt 2) UNKNOWN ∅.
Definition unpack_state : InstructionTracer :=
  tracer_with [ListVariable KList [one_const; two_const] UNKNOWN ∅] ∅.

Definition global_tensor_state : InstructionTracer :=
  tracer_with [] {[ "w" := PyTensor 7 ]}.

Definition kw_call_state : InstructionTracer :=
  tracer_with
    [ConstantVariable (CTuple []) UNKNOWN ∅; two_const; one_const;
     AllowedFunctionOrModuleVariable (PyObject 0) YES ∅] ∅.

Definition dummy_tracer : InstructionTracer :=
  mkTracer [] [] [] ∅ ∅ 0 0 [] (mkCodeOptions [] [] 0) [] ∅ [].

(** The tracer built for a sample frame, and the tracer after its run. *)
Definition init_sample (frame : Frame) : InstructionTracer :=
  match @init_of sample_collaborators frame with
  | Ok s => s
  | Raise _ => dummy_tracer
  end.

Definition traced_sample (frame : Frame) : InstructionTracer :=
  match @transform sample_collaborators 9 frame
          (co_instructions (frame_code frame)) (co_options (frame_code frame)) with
  | Some (Ok s) => s
  | _ => dummy_tracer
  end.

Definition init_yield : InstructionTracer := Eval vm_compute in init_sample frame_yield.
Definition at_yield : InstructionTracer :=
  Eval vm_compute in
    match @advance sample_collaborators 1 init_yield with
    | Some s => s
    | None => dummy_tracer
    end.
Definition init_branch : InstructionTracer := Eval vm_compute in init_sample frame_branch.
Definition traced_add : InstructionTracer := Eval vm_compute in traced_sample frame_add.
Definition traced_poly : InstructionTracer := Eval vm_compute in traced_sample frame_poly.
Definition traced_branch : InstructionTracer := Eval vm_compute in traced_sample frame_branch.
Definition converted_branch : GuardedCode :=
  mkGuardedCode (mkCode "model.py" (instructions traced_branch) (code_options traced_branch))
    (guards traced_branch).
Definition converted_poly : GuardedCode :=
  mkGuardedCode (mkCode "model.py" (instructions traced_poly) (code_options traced_poly))
    (guards traced_poly).

(** ** Further vocabulary and samples *)

(** ** Further sample states *)

Definition three_const : VariableTracker := ConstantVariable (CInt 3) UNKNOWN ∅.

Definition stack_state : InstructionTracer :=
  tracer_with [one_const; two_const; three_const] ∅.

Definition sample_callable : VariableTracker :=
  AllowedFunctionOrModuleVariable (PyObject 0) YES ∅.

Definition method_call_state : InstructionTracer :=
  tracer_with [two_const; one_const; RawNone; sample_callable] ∅.

Definition swap_state : InstructionTracer :=
  tracer_with [two_const; one_const; three_const] ∅.

Definition kw_names_state : InstructionTracer :=
  tracer_with
    [ConstantVariable (CTuple [CStr "dim"]) UNKNOWN ∅; two_const; one_const;
     sample_callable] ∅.

Definition allowed_global_state : InstructionTracer :=
  tracer_with [] {[ "torch" := PyObject 0 ]}.

Definition const_return_state : InstructionTracer := tracer_with [] ∅.

(** A string in which the character [c] does not occur. *)
Fixpoint lacks (c : Ascii.ascii) (s : string) : bool :=
  match s with
  | EmptyString => true
  | String a s' => negb (Ascii.eqb a c) && lacks c s'
  end.

(** A string without a dot: what [split(".")] leaves whole. *)
Definition no_dot (s : string) : bool := lacks (Ascii.ascii_of_nat 46) s.

(** The values that [wrap_local] has a branch for. *)
Definition wrappable (value : PyObj) : bool :=
  match value with
  | PyTensor _ | PyModule _ _ => true
  | PyConstant (CBool _) | PyConstant CNone => true
  | _ => false
  end.

(** The requirement of the guard that [wrap_local] puts on a local. *)
Definition local_requirement (value : PyObj) : GuardRequirement :=
  match value with
  | PyTensor _ => TYPE_MATCH
  | _ => VALUE_MATCH
  end.

Definition const_stack_state : InstructionTracer :=
  tracer_with [ConstantVariable (CInt 1) YES ∅] ∅.

(** a registry with a module in training mode and one in evaluation mode *)
Definition mixed_modes_state : InstructionTracer :=
  set_nn_modules [("a_0", PyModule 0 true); ("b_1", PyModule 1 false)]
    (tracer_with [TensorVariable 0 YES ∅] ∅).


(** What [wrap_local] makes of the local [name] bound to [value]. *)
Definition wraps_as `{Collaborators} (name : string) (value : PyObj)
    (v : VariableTracker) : Prop :=
  match value with
  | PyTensor _ =>
      ∃ p, v = TensorVariable p YES {[ mkGuard name LOCAL TYPE_MATCH ]}
  | PyModule _ _ =>
      ∃ n : nat, v = NNModuleVariable (name +:+ "_" +:+ pretty n) YES
                 {[ mkGuard name LOCAL VALUE_MATCH ]}
  | PyConstant c =>
      v = ConstantVariable c default_state {[ mkGuard name LOCAL VALUE_MATCH ]}
  | _ => False
  end.

(** [def f(x): return x] called with an integer *)
Definition frame_int_local : Frame :=
  frame_of "model.py" [op_name "LOAD_FAST" "x"; op0 "RETURN_VALUE"]
    [] ["x"] 1 [("x", PyConstant (CInt 3))] [].

(** [def f(net, x): return net(x)] on a module and a tensor *)
Definition frame_module : Frame :=
  frame_of "model.py"
    [op_name "LOAD_FAST" "net"; op_name "LOAD_FAST" "x"; op_int "CALL_FUNCTION" 1;
     op0 "RETURN_VALUE"]
    [] ["net"; "x"] 2 [("net", PyModule 4 true); ("x", PyTensor 0)] [].

Definition init_module : InstructionTracer := Eval vm_compute in init_sample frame_module.

(** [k1, v1, k2, v2, ...]: the operands of BUILD_MAP, as they are pushed. *)
Fixpoint alternate {A} (ks vs : list A) : list A :=
  match ks, vs with
  | k :: ks', v :: vs' => k :: v :: alternate ks' vs'
  | _, _ => []
  end.

Definition call_args_state : InstructionTracer :=
  tracer_with [two_const; one_const; sample_callable] ∅.

(** the stack of [{1: 2, 1: 3}], with a repeated key *)
Definition repeated_key_state : InstructionTracer :=
  tracer_with [three_const; one_const; two_const; one_const] ∅.

Definition const_key_state : InstructionTracer :=
  tracer_with
    [ConstantVariable (CTuple [CInt 1; CInt 1]) UNKNOWN ∅; three_const; two_const] ∅.







Definition init_poly : InstructionTracer := Eval vm_compute in init_sample frame_poly.

(** a stream whose conditional jump goes back to the load before it *)
Definition frame_loop : Frame :=
  frame_of "model.py"
    [mkInstruction "LOAD_CONST" (Some 1) (CInt 0) None;
     op_jump "POP_JUMP_IF_FALSE" 0;
     op_name "LOAD_FAST" "x"; op0 "RETURN_VALUE"]
    [] ["x"] 1 [("x", PyTensor 0)] [].

Definition init_loop : InstructionTracer := Eval vm_compute in init_sample frame_loop.


Definition sample_tensor : VariableTracker :=
  TensorVariable 0 YES {[ mkGuard "x" LOCAL TYPE_MATCH ]}.

(** the stack of [x.add(1)] after the argument was pushed *)
Definition method_on_tensor_state : InstructionTracer :=
  Eval vm_compute in
    set_graph [mkNode 0 "placeholder" (TName "x_0") [] []]
      (tracer_with
         [one_const; RawNone;
          GetAttrVariable sample_tensor (CStr "add") YES
            {[ mkGuard "x" LOCAL TYPE_MATCH ]}] ∅).




(** ** Reasoning about the monad *)

Lemma bind_Ok {A B} (m : M A) (k : A → M B) s b s' :
  bind m k s = Ok (b, s') ↔ ∃ a s1, m s = Ok (a, s1) ∧ k a s1 = Ok (b, s').
Proof.
  unfold bind. split.
  - destruct (m s) as [[a s1]|e]; [eauto | discriminate].
  - intros (a & s1 & -> & Hk). exact Hk.
Qed.

Lemma set_stack_set_stack st st' s : set_stack st (set_stack st' s) = set_stack st s.
Proof. by destruct s. Qed.

Lemma set_stack_same s : set_stack (stack s) s = s.
Proof. by destruct s. Qed.

Lemma frame_rel_refl s : frame_rel s s.
Proof. by split. Qed.

Lemma frame_rel_trans s1 s2 s3 : frame_rel s1 s2 → frame_rel s2 s3 → frame_rel s1 s3.
Proof. intros [] []; split; congruence. Qed.

Lemma frames_ret {A} (a : A) : frames (ret a).
Proof. intros s a' s' [= <- <-]. apply frame_rel_refl. Qed.

Lemma frames_raise {A} e : frames (@raise A e).
Proof. intros s a s' [=]. Qed.

Lemma frames_bind {A B} (m : M A) (k : A → M B) :
  frames m → (∀ a, frames (k a)) → frames (bind m k).
Proof.
  intros Hm Hk s b s' (a & s1 & H1 & H2)%bind_Ok.
  eapply frame_rel_trans; [eapply Hm | eapply Hk]; eauto.
Qed.

Lemma frames_lift {A} (r : result A) : frames (lift r).
Proof. intros s a s'. unfold lift. destruct r; intros [=]; subst. apply frame_rel_refl. Qed.

Lemma frames_gets {A} (f : InstructionTracer → A) : frames (gets f).
Proof. intros s a s' [= <- <-]. apply frame_rel_refl. Qed.

Lemma frames_or_raise {A} e (o : option A) : frames (or_raise e o).
Proof. destruct o; [apply frames_ret | apply frames_raise]. Qed.

Lemma frames_assert b : frames (assert b).
Proof. destruct b; [apply frames_ret | apply frames_raise]. Qed.

Lemma frames_modify_stack f : frames (modify (λ s, set_stack (f s) s)).
Proof. intros s a s' [= <- <-]. by split. Qed.

Lemma frames_modify_locals f : frames (modify (λ s, set_symbolic_locals (f s) s)).
Proof. intros s a s' [= <- <-]. by split. Qed.

Lemma frames_push v : frames (push v).
Proof. apply frames_modify_stack. Qed.

Lemma frames_pop : frames pop.
Proof. intros s a s'. unfold pop. destruct (stack s); intros [=]; subst. by split. Qed.

Lemma placeholders_app g1 g2 : placeholders (g1 ++ g2) = placeholders g1 ++ placeholders g2.
Proof. apply List.filter_app. Qed.

Lemma placeholders_cons n g :
  placeholders (n :: g) = if is_placeholder n then n :: placeholders g else placeholders g.
Proof. reflexivity. Qed.

Lemma frames_create_node op tgt args kwargs :
  String.eqb op "placeholder" = false → frames (create_node op tgt args kwargs).
Proof.
  intros Hop s a s'. unfold create_node.
  intros (g & s1 & [= <- <-] & (u & s2 & [= <- <-] & [= <- <-])%bind_Ok)%bind_Ok.
  split; try done. simpl. rewrite placeholders_app, placeholders_cons.
  unfold is_placeholder. simpl. rewrite Hop. apply app_nil_r.
Qed.

Ltac frames_step :=
  lazymatch goal with
  | |- frames (bind _ _) => apply frames_bind; [| intros ?]
  | |- frames (ret _) => apply frames_ret
  | |- frames (raise _) => apply frames_raise
  | |- frames (unimplemented _) => apply frames_raise
  | |- frames (lift _) => apply frames_lift
  | |- frames (gets _) => apply frames_gets
  | |- frames (or_raise _ _) => apply frames_or_raise
  | |- frames (int_operand _) => apply frames_or_raise
  | |- frames (assert _) => apply frames_assert
  | |- frames (push _) => apply frames_push
  | |- frames pop => apply frames_pop
  | |- frames (create_node _ _ _ _) => apply frames_create_node; reflexivity
  | |- frames (create_proxy _ _ _ _) => apply frames_create_node; reflexivity
  | |- frames (modify (λ s, set_symbolic_locals _ s)) => apply frames_modify_locals
  | |- frames (match ?x with _ => _ end) => destruct x
  end.

Ltac frames_tac := repeat frames_step; eauto.

Lemma frames_pop_times n : frames (pop_times n).
Proof. induction n; simpl; frames_tac. Qed.

Lemma frames_popn n : frames (popn n).
Proof. unfold popn. pose proof frames_pop_times. frames_tac. Qed.

Lemma frames_push_each l : frames (push_each l).
Proof. induction l; simpl; frames_tac. Qed.

Lemma frames_get_guards v : frames (get_guards v).
Proof. unfold get_guards. frames_tac. Qed.

Lemma frames_build_map kvs acc : frames (build_map kvs acc).
Proof. revert acc. induction kvs as [|[k v] kvs IH]; intros acc; simpl; frames_tac. Qed.

#[local] Hint Resolve frames_popn frames_push_each frames_build_map : core.

Section tracer_frames.
Context `{Collaborators}.

Lemma frames_get_submodule keys : frames (get_submodule keys).
Proof.
  unfold get_submodule. frames_tac.
  match goal with |- frames (?f ?o ?l) => generalize o; induction l; intros end;
    frames_tac.
Qed.

Lemma frames_call_function fn args kwargs : frames (call_function fn args kwargs).
Proof.
  pose proof frames_get_submodule.
  unfold call_function. frames_tac.
Qed.

Lemma frames_stack_op op n inst : frames (stack_op op n inst).
Proof. unfold stack_op. frames_tac. Qed.

Lemma frames_LOAD_ATTR inst : frames (LOAD_ATTR inst).
Proof. pose proof frames_get_submodule. unfold LOAD_ATTR. frames_tac. Qed.

(** Every handler but the conditional jump and the return leaves the
    instruction stream, the pointer, the guards, the captured arguments,
    the code metadata and the placeholders as they are. *)
Lemma plain_handlers_frames name handler inst :
  (name, handler) ∈ plain_handlers → frames (handler inst).
Proof.
  pose proof frames_call_function. pose proof frames_LOAD_ATTR.
  unfold plain_handlers, stack_ops. intros Hin.
  repeat (apply elem_of_cons in Hin as [[= _ ->]|Hin];
          [first [apply frames_stack_op
                 | unfold LOAD_FAST, STORE_FAST, LOAD_CONST, LOAD_GLOBAL, load_builtin,
                     CALL_FUNCTION, CALL_FUNCTION_EX, CALL_FUNCTION_KW, LOAD_METHOD,
                     CALL_METHOD, BUILD_TUPLE, BUILD_SLICE, BUILD_LIST, build_seq,
                     BUILD_MAP, BUILD_CONST_KEY_MAP, UNPACK_SEQUENCE, NOP, POP_TOP,
                     ROT_TWO, ROT_THREE, ROT_FOUR, DUP_TOP, DUP_TOP_TWO;
                   frames_tac] |]).
  by apply elem_of_nil in Hin.
Qed.
End tracer_frames.

(** ** What one step does *)

Ltac inv_M :=
  repeat match goal with
    | H : bind _ _ _ = Ok _ |- _ => apply bind_Ok in H as (? & ? & ? & ?)
    | H : ret _ _ = Ok _ |- _ => unfold ret in H; simplify_eq
    | H : gets _ _ = Ok _ |- _ => unfold gets in H; simplify_eq
    | H : modify _ _ = Ok _ |- _ => unfold modify in H; simplify_eq
    | H : raise _ _ = Ok _ |- _ => discriminate H
    | H : unimplemented _ _ = Ok _ |- _ => discriminate H
    | H : assert ?b _ = Ok _ |- _ =>
        destruct b eqn:?; [unfold assert, ret in H; simplify_eq | discriminate H]
    | H : or_raise _ ?o _ = Ok _ |- _ =>
        destruct o eqn:?; [unfold or_raise, ret in H; simplify_eq | discriminate H]
    | H : int_operand _ _ = Ok _ |- _ => unfold int_operand in H
    | H : lift ?r _ = Ok _ |- _ =>
        destruct r eqn:?; [unfold lift in H; simplify_eq | discriminate H]
    | H : pop ?s = Ok _ |- _ =>
        unfold pop in H; destruct (stack s) eqn:?; [discriminate H | simplify_eq]
    | H : get_guards ?v _ = Ok _ |- _ =>
        unfold get_guards in H; destruct (is_VariableTracker v) eqn:?;
        [unfold ret in H; simplify_eq | discriminate H]
    | H : get_state ?v _ = Ok _ |- _ =>
        unfold get_state in H; destruct (is_VariableTracker v) eqn:?;
        [unfold ret in H; simplify_eq | discriminate H]
    end.

Lemma dict_get_elem {K V} (eqb : K → K → bool) k (d : list (K * V)) v :
  dict_get eqb k d = Some v → ∃ k', (k', v) ∈ d.
Proof.
  induction d as [|[k' v'] d IH]; simpl; [done|].
  destruct (eqb k' k).
  - intros [= ->]. exists k'. apply elem_of_cons. by left.
  - intros (k'' & Hin)%IH. exists k''. apply elem_of_cons. by right.
Qed.

Section step_facts.
Context `{Collaborators}.

Lemma handler_of_cases name h :
  handler_of name = Some h →
  (name = "POP_JUMP_IF_FALSE" ∧ h = POP_JUMP_IF_FALSE) ∨
  (name = "RETURN_VALUE" ∧ h = RETURN_VALUE) ∨
  (name ≠ "POP_JUMP_IF_FALSE" ∧ name ≠ "RETURN_VALUE" ∧
   ∃ name', (name', h) ∈ plain_handlers).
Proof.
  unfold handler_of, handlers. cbn [app dict_get].
  destruct (String.eqb_spec "POP_JUMP_IF_FALSE" name) as [<-|Hj].
  { intros [= <-]. by left. }
  destruct (String.eqb_spec "RETURN_VALUE" name) as [<-|Hr].
  { intros [= <-]. right. by left. }
  intros Hget%dict_get_elem. right. right. done.
Qed.

Lemma step_Ok s b s' :
  step s = Ok (b, s') →
  ∃ inst h,
    instructions s !! instruction_pointer s = Some inst ∧
    handler_of (opname inst) = Some h ∧
    h inst (set_instruction_pointer (S (instruction_pointer s)) s) = Ok (tt, s') ∧
    b = negb (String.eqb (opname inst) "RETURN_VALUE").
Proof.
  unfold step. intros Hs. inv_M.
  destruct (handler_of (opname _)) as [h|] eqn:Hh; [|discriminate].
  match goal with H : h _ _ = Ok (?u, _) |- _ => destruct u end.
  eauto 10.
Qed.

Lemma step_missing s inst :
  instructions s !! instruction_pointer s = Some inst →
  handler_of (opname inst) = None →
  step s = Raise (NotImplementedError ("missing: " +:+ opname inst)).
Proof.
  intros Hi Hh. unfold step, bind, gets, id. rewrite Hi. simpl. by rewrite Hh.
Qed.

Lemma step_past_end s :
  length (instructions s) ≤ instruction_pointer s → step s = Raise IndexError.
Proof.
  intros Hlen. unfold step, bind, gets, id.
  by rewrite (lookup_ge_None_2 _ _ Hlen).
Qed.

Lemma jump_Ok inst s s' :
  jump inst s = Ok (tt, s') →
  ∃ t, target inst = Some t ∧ t < length (instructions s) ∧
       s' = set_instruction_pointer t s.
Proof.
  unfold jump. intros Hj. inv_M.
  destruct (target inst) as [t|]; [|discriminate].
  case_bool_decide; [|discriminate]. inv_M. eauto.
Qed.

Lemma POP_JUMP_IF_FALSE_Ok inst s s' :
  POP_JUMP_IF_FALSE inst (set_instruction_pointer (S (instruction_pointer s)) s)
    = Ok (tt, s') →
  jump_effect inst s s'.
Proof.
  unfold POP_JUMP_IF_FALSE. intros Hj. inv_M.
  simpl in *. simplify_eq.
  match goal with H : stack s = ?v :: _ |- _ => destruct v; try discriminate end.
  exists value, state, guards0. eexists. split; [eassumption|].
  destruct (truthy value) eqn:Ht; simpl in *.
  - unfold ret in *. simplify_eq. simpl. done.
  - match goal with H : jump _ _ = Ok _ |- _ =>
      apply jump_Ok in H as (t & Ht' & Hlt & ->) end.
    simpl in *. done.
Qed.
End step_facts.

Section return_facts.
Context `{Collaborators}.

Lemma GraphArg_load_Ok a s i s' :
  GraphArg_load a s = Ok (i, s') → s' = s ∧ loads_arg (code_options s) i a.
Proof.
  destruct a; simpl; unfold create_load_fast, create_load_global;
    intros Hl; inv_M; eauto.
Qed.

Lemma load_each_Ok l s loads s' :
  load_each l s = Ok (loads, s') →
  s' = s ∧ Forall2 (loads_arg (code_options s)) loads l.
Proof.
  revert loads. induction l as [|a l IH]; simpl; intros loads Hl; inv_M.
  - by split.
  - match goal with H : GraphArg_load _ _ = Ok _ |- _ =>
      apply GraphArg_load_Ok in H as [-> Ha] end.
    match goal with H : load_each _ _ = Ok _ |- _ =>
      apply IH in H as [-> Hl'] end.
    split; [done|]. by constructor.
Qed.

Lemma RETURN_VALUE_Ok inst s s' :
  RETURN_VALUE inst (set_instruction_pointer (S (instruction_pointer s)) s)
    = Ok (tt, s') →
  return_effect s s'.
Proof.
  unfold RETURN_VALUE. intros Hr. inv_M. simpl in *.
  match goal with H : stack s = ?v :: _ |- _ => destruct v; try discriminate end;
    simpl in *; destruct state; try discriminate; inv_M.
  unfold create_node, create_load_global in *. inv_M. simpl in *.
  match goal with H : load_each _ _ = Ok _ |- _ =>
    apply load_each_Ok in H as [-> Hloads] end.
  simpl in *.
  eexists _, _, _, _, _. cbn zeta.
  split; [eassumption|]. simpl.
  split; [done|]. split; [done|]. split; [done|].
  split.
  { rewrite placeholders_app. simpl. apply app_nil_r. }
  split; [done|]. split; [reflexivity|].
  split; [|exact Hloads].
  simpl. eauto.
Qed.

(** One successful step is a plain handler, a conditional jump or the
    return. *)
Lemma step_cases s b s' :
  step s = Ok (b, s') →
  ∃ inst,
    instructions s !! instruction_pointer s = Some inst ∧
    ((opname inst ≠ "POP_JUMP_IF_FALSE" ∧ opname inst ≠ "RETURN_VALUE" ∧ b = true ∧
      frame_rel (set_instruction_pointer (S (instruction_pointer s)) s) s') ∨
     (opname inst = "POP_JUMP_IF_FALSE" ∧ b = true ∧ jump_effect inst s s') ∨
     (opname inst = "RETURN_VALUE" ∧ b = false ∧ return_effect s s')).
Proof.
  intros (inst & h & Hi & Hh & Hrun & ->)%step_Ok.
  exists inst. split; [done|].
  apply handler_of_cases in Hh as [[Hn ->]|[[Hn ->]|(Hj & Hr & name' & Hin)]].
  - right. left. rewrite Hn. split; [done|]. split; [done|].
    by eapply POP_JUMP_IF_FALSE_Ok.
  - right. right. rewrite Hn. split; [done|]. split; [done|].
    by eapply RETURN_VALUE_Ok.
  - left. split; [done|]. split; [done|]. split.
    + apply negb_true_iff. by apply String.eqb_neq.
    + eapply plain_handlers_frames; eauto.
Qed.
End return_facts.

(** ** Termination of forward-jumping streams *)

Lemma forward_from_lookup instrs k i inst t :
  forward_from k instrs = true →
  instrs !! i = Some inst → target inst = Some t → k + i < t.
Proof.
  revert k i. induction instrs as [|x instrs IH]; intros k i; [done|].
  simpl. intros [Hx Hrest]%andb_prop. destruct i as [|i]; simpl.
  - intros [= ->] Ht. rewrite Ht in Hx. apply Nat.ltb_lt in Hx. lia.
  - intros Hi Ht. specialize (IH (S k) i Hrest Hi Ht). lia.
Qed.

Section termination.
Context `{Collaborators}.

Lemma step_pointer s b s' :
  forward_jumps (instructions s) →
  step s = Ok (b, s') →
  instruction_pointer s < instruction_pointer s' ∧
  (b = true → instructions s' = instructions s).
Proof.
  intros Hfw (inst & Hi & Hcase)%step_cases.
  destruct Hcase as [(_ & _ & _ & Hfr)|[(_ & _ & Hj)|(_ & -> & Hr)]].
  - destruct Hfr. simpl in *. split; [lia | done].
  - destruct Hj as (c & st & g & rest & _ & _ & _ & Hins & _ & _ & _ & _ & _ & Hip).
    split; [|done]. destruct (truthy c); [lia|].
    destruct Hip as [Ht _].
    pose proof (forward_from_lookup _ 0 _ _ _ Hfw Hi Ht). lia.
  - destruct Hr as (? & ? & ? & ? & ? & _ & _ & Hip & _). split; [lia | done].
Qed.

Lemma run_bounded k s :
  forward_jumps (instructions s) →
  length (instructions s) - instruction_pointer s ≤ k →
  ∃ r, run (S k) s = Some r ∧ (run k s = Some r ∨ r = Raise IndexError).
Proof.
  revert s. induction k as [|k IH]; intros s Hfw Hk.
  - exists (Raise IndexError). split; [|by right].
    simpl. rewrite step_past_end; [done | lia].
  - change (run (S (S k)) s) with
      (match step s with
       | Raise e => Some (Raise e)
       | Ok (true, s') => run (S k) s'
       | Ok (false, s') => Some (Ok s')
       end).
    change (run (S k) s) with
      (match step s with
       | Raise e => Some (Raise e)
       | Ok (true, s') => run k s'
       | Ok (false, s') => Some (Ok s')
       end).
    destruct (step s) as [[[] s1]|e] eqn:Hstep; [|by eauto..].
    destruct (step_pointer _ _ _ Hfw Hstep) as [Hlt Hins].
    specialize (Hins eq_refl).
    pose proof (step_Ok _ _ _ Hstep) as (inst & _ & Hi%lookup_lt_Some & _).
    apply IH; rewrite Hins; [done | lia].
Qed.
End termination.

(** ** The guards of a successful trace *)

Section guard_facts.
Context `{Collaborators}.

Lemma run_guards fuel s s' :
  run fuel s = Some (Ok s') →
  ∃ sr rv,
    last (visited fuel s) = Some sr ∧
    popped_by "RETURN_VALUE" sr = Some rv ∧
    guards s' = guards s ∪ (vt_guards rv ∪ ⋃ (jump_guards <$> visited fuel s)).
Proof.
  revert s. induction fuel as [|fuel IH]; intros s; [done|].
  simpl. destruct (step s) as [[b s1]|e] eqn:Hstep; [|done].
  pose proof (step_cases _ _ _ Hstep) as (inst & Hi & Hcase).
  destruct Hcase as [(Hj & Hr & -> & Hfr)|[(Hj & -> & Heff)|(Hr & -> & Heff)]].
  - intros (sr & rv & Hlast & Hpop & Hg)%IH.
    exists sr, rv. rewrite last_cons, Hlast. split; [done|]. split; [done|].
    rewrite Hg. destruct Hfr as [_ _ -> _ _ _ _ _ _]. simpl.
    unfold jump_guards at 2, popped_by. rewrite Hi.
    apply String.eqb_neq in Hj. rewrite Hj. set_solver.
  - intros (sr & rv & Hlast & Hpop & Hg)%IH.
    exists sr, rv. rewrite last_cons, Hlast. split; [done|]. split; [done|].
    destruct Heff as (c & st & g & rest & Hst & _ & Hg' & _).
    rewrite Hg, Hg'. simpl.
    unfold jump_guards at 2, popped_by. rewrite Hi, Hj, Hst. simpl. set_solver.
  - intros [= <-]. destruct Heff as (p & g & rest & ? & ? & Hst & Hg & _).
    exists s, (TensorVariable p YES g). simpl. split; [done|].
    unfold jump_guards, popped_by. rewrite Hi, Hr, Hst. simpl.
    split; [done|]. rewrite Hg. set_solver.
Qed.

Lemma run_guards_mono fuel s s' :
  run fuel s = Some (Ok s') → guards s ⊆ guards s'.
Proof. intros (? & ? & _ & _ & ->)%run_guards. set_solver. Qed.
End guard_facts.

(** ** Placeholders and captured arguments *)

Lemma last_placeholder_None g : last_placeholder g = None → placeholders g = [].
Proof.
  induction g as [|n g IH]; simpl; [done|].
  destruct (last_placeholder g); [done|].
  destruct (is_placeholder n) eqn:Hn; [done|]. intros _.
  rewrite placeholders_cons, Hn. by apply IH.
Qed.

Lemma last_placeholder_Some g i :
  last_placeholder g = Some i →
  ∃ pre p post, g = pre ++ p :: post ∧ length pre = i ∧
                is_placeholder p = true ∧ placeholders post = [].
Proof.
  revert i. induction g as [|n g IH]; simpl; intros i; [done|].
  destruct (last_placeholder g) as [j|] eqn:Hl.
  - intros [= <-]. destruct (IH j eq_refl) as (pre & p & post & -> & <- & Hp & Hpost).
    by exists (n :: pre), p, post.
  - destruct (is_placeholder n) eqn:Hn; [|done]. intros [= <-].
    exists [], n, g. split; [done|]. split; [done|]. split; [done|].
    by apply last_placeholder_None.
Qed.

(** Where [create_graph_input] puts the new placeholder: right after the last
    placeholder there is, at the very front when there is none. *)
Lemma create_graph_input_Ok name s p s' :
  create_graph_input name s = Ok (p, s') →
  ∃ pre post,
    let node := mkNode (length (graph s)) "placeholder"
                  (placeholder_target name (cnt s)) [] [] in
    graph s = pre ++ post ∧
    s' = set_graph (pre ++ node :: post) (set_cnt (S (cnt s)) s) ∧
    placeholders post = [] ∧
    (pre = [] ∨ ∃ pre' l, pre = pre' ++ [l] ∧ is_placeholder l = true).
Proof.
  unfold create_graph_input, next_cnt. intros Hc. inv_M. simpl.
  match goal with |- context [last_placeholder ?g] =>
    destruct (last_placeholder g) as [i|] eqn:Hl end.
  - apply last_placeholder_Some in Hl as (pre & l & post & Hg & Hlen & Hp & Hpost).
    exists (pre ++ [l]), post. rewrite Hg. unfold insert_after.
    rewrite (cons_middle l pre post), app_assoc.
    rewrite take_app_length', drop_app_length' by (rewrite length_app; simpl; lia).
    split; [done|]. split; [done|]. split; [done|]. right. eauto.
  - apply last_placeholder_None in Hl.
    eexists [], _. simpl. split; [done|]. split; [done|]. split; [done|].
    by left.
Qed.

Lemma create_graph_input_placeholders name s p s' :
  create_graph_input name s = Ok (p, s') →
  node_target <$> placeholders (graph s') =
    (node_target <$> placeholders (graph s)) ++ [placeholder_target name (cnt s)] ∧
  cnt s' = S (cnt s).
Proof.
  intros (pre & post & Hg & -> & Hpost & _)%create_graph_input_Ok. simpl.
  rewrite Hg, !placeholders_app, placeholders_cons. simpl.
  rewrite Hpost, !app_nil_r, fmap_app. done.
Qed.

Section init_facts.
Context `{Collaborators}.

Lemma wrap_local_Ok name value s v s' :
  wrap_local name value s = Ok (v, s') →
  init_rel s s' ∧
  (arg_order_upto (cnt s) (graph s) (graphargs s) →
   arg_order_upto (cnt s') (graph s') (graphargs s')).
Proof.
  destruct value as [c| | | |]; simpl.
  - destruct c; try discriminate; intros Hw; inv_M; (split; [by split|done]).
  - intros Hw. inv_M.
    match goal with Hc : create_graph_input _ _ = Ok _ |- _ =>
      pose proof (create_graph_input_placeholders _ _ _ _ Hc) as [Hph Hcnt];
      apply create_graph_input_Ok in Hc as (pre & post & _ & -> & _) end.
    simpl in *. split; [split; simpl; done || lia|].
    intros (ns & Hlen & Hsort & Hlt & Heq).
    exists (ns ++ [cnt s]). split; [rewrite !length_app; simpl; lia|].
    split.
    { apply StronglySorted_app_2; [|done|repeat constructor].
      intros a b Ha ->%list_elem_of_singleton.
      by eapply Forall_forall in Hlt. }
    split.
    { apply Forall_app. split; [|repeat constructor].
      eapply Forall_impl; [exact Hlt|]. simpl. lia. }
    rewrite Hph, Heq, zip_with_app by done. done.
  - unfold next_cnt. intros Hw. inv_M. simpl.
    split; [split; simpl; done || lia|].
    intros (ns & Hlen & Hsort & Hlt & Heq).
    exists ns. split; [done|]. split; [done|]. split; [|done].
    eapply Forall_impl; [exact Hlt|]. simpl. lia.
  - discriminate.
  - discriminate.
Qed.

Lemma init_rel_trans s1 s2 s3 : init_rel s1 s2 → init_rel s2 s3 → init_rel s1 s3.
Proof. intros [] []; split; try congruence. lia. Qed.

Lemma wrap_locals_Ok f_locals names acc s locals s' :
  wrap_locals f_locals names acc s = Ok (locals, s') →
  init_rel s s' ∧
  (arg_order_upto (cnt s) (graph s) (graphargs s) →
   arg_order_upto (cnt s') (graph s') (graphargs s')).
Proof.
  revert acc s. induction names as [|k names IH]; simpl; intros acc s Hw.
  - inv_M. split; [by split|done].
  - destruct (f_locals !! k) as [value|]; [|by eapply IH].
    inv_M.
    match goal with Hl : wrap_local _ _ _ = Ok _ |- _ =>
      apply wrap_local_Ok in Hl as [Hr1 Hi1] end.
    match goal with Hl : wrap_locals _ _ _ _ = Ok _ |- _ =>
      apply IH in Hl as [Hr2 Hi2] end.
    split; [by eapply init_rel_trans|auto].
Qed.

Lemma InstructionTracer_init_Ok instrs f_locals globals builtins co s0 :
  InstructionTracer_init instrs f_locals globals builtins co = Ok s0 →
  instructions s0 = instrs ∧ instruction_pointer s0 = 0 ∧ stack s0 = [] ∧
  guards s0 = ∅ ∧ code_options s0 = co ∧
  arg_order (graph s0) (graphargs s0).
Proof.
  unfold InstructionTracer_init.
  destruct (wrap_locals _ _ _ _) as [[locals s]|] eqn:Hw; [|done].
  intros [= <-]. apply wrap_locals_Ok in Hw as [[] Hinv]. simpl in *.
  repeat (split; [done|]).
  destruct Hinv as (ns & ? & ? & _ & ?).
  - exists []. repeat split; constructor.
  - by exists ns.
Qed.

(** A successful run ends in a return, and nothing before it touches the
    captured arguments, the placeholders or the code metadata. *)
Lemma run_return fuel s s' :
  run fuel s = Some (Ok s') →
  ∃ sr, graphargs sr = graphargs s ∧
        placeholders (graph sr) = placeholders (graph s) ∧
        code_options sr = code_options s ∧
        instructions sr = instructions s ∧
        return_effect sr s'.
Proof.
  revert s. induction fuel as [|fuel IH]; intros s; [done|].
  simpl. destruct (step s) as [[b s1]|e] eqn:Hstep; [|done].
  pose proof (step_cases _ _ _ Hstep) as (inst & Hi & Hcase).
  destruct Hcase as [(_ & _ & -> & Hfr)|[(_ & -> & Heff)|(_ & -> & Heff)]].
  - intros (sr & ? & ? & ? & ? & ?)%IH. destruct Hfr. simpl in *.
    exists sr. repeat split; congruence.
  - intros (sr & ? & ? & ? & ? & ?)%IH.
    destruct Heff as (? & ? & ? & ? & _ & _ & _ & ? & Hg & ? & ? & _).
    exists sr. rewrite Hg in *. repeat split; congruence.
  - intros [= <-]. by exists s.
Qed.
End init_facts.

(** ** The orchestrator boundary *)

(** C1: [convert_frame] never propagates an exception: it has no outcome
    that raises, and whenever [convert_frame_assert] raises — the
    NotImplementedError of [unimplemented] or anything else — it returns the
    frame's own code object with the empty guard set. *)
Theorem convert_frame_never_raises `{Collaborators} fuel frame :
  (∀ e, convert_frame fuel frame ≠ Some (Raise e)) ∧
  (∀ e, convert_frame_assert fuel frame = Some (Raise e) →
        convert_frame fuel frame =
          Some (Ok (mkGuardedCode (frame_code frame) ∅))).
Proof.
  unfold convert_frame. split.
  - intros e. destruct (convert_frame_assert fuel frame) as [[gc|[]]|]; discriminate.
  - intros e ->. by destruct e.
Qed.

Lemma convert_frame_never_raises_witness :
  @convert_frame_assert sample_collaborators 9 frame_yield =
    Some (Raise (NotImplementedError "missing: YIELD_VALUE")) ∧
  @convert_frame sample_collaborators 9 frame_yield =
    Some (Ok (mkGuardedCode (frame_code frame_yield) ∅)).
Proof.
  split; [vm_compute; reflexivity|].
  apply (proj2 (@convert_frame_never_raises sample_collaborators 9 frame_yield)
           (NotImplementedError "missing: YIELD_VALUE")).
  vm_compute; reflexivity.
Defined.

Section orchestrator.
Context `{Collaborators}.

Lemma run_advance k fuel s0 s :
  advance k s0 = Some s → run (k + fuel) s0 = run fuel s.
Proof.
  revert s0. induction k as [|k IH]; simpl; intros s0.
  - by intros [= ->].
  - destruct (step s0) as [[[] s1]|e]; try discriminate. apply IH.
Qed.

Lemma convert_frame_of_raise fuel frame s0 e :
  init_of frame = Ok s0 →
  run fuel s0 = Some (Raise e) →
  convert_frame fuel frame = Some (Ok (mkGuardedCode (frame_code frame) ∅)).
Proof.
  intros Hinit Hrun. unfold convert_frame, convert_frame_assert.
  destruct (String.prefix _ _); [done|].
  destruct (debug_checks _) as [?|[]]; try done.
  unfold transform_code_object, transform. unfold init_of in Hinit.
  rewrite Hinit, Hrun. by destruct e.
Qed.
End orchestrator.

(** C4: stepping onto an instruction whose opcode has no handler raises the
    abort signal that names the opcode; the run that reaches it ends with
    that signal, and the conversion returns the frame's own code object, so
    its own instruction stream, with the empty guard set. *)
Theorem missing_opcode_aborts `{Collaborators} fuel k frame s0 s inst :
  init_of frame = Ok s0 →
  advance k s0 = Some s →
  instructions s !! instruction_pointer s = Some inst →
  handler_of (opname inst) = None →
  k < fuel →
  step s = Raise (NotImplementedError ("missing: " +:+ opname inst)) ∧
  run fuel s0 = Some (Raise (NotImplementedError ("missing: " +:+ opname inst))) ∧
  convert_frame fuel frame = Some (Ok (mkGuardedCode (frame_code frame) ∅)).
Proof.
  intros Hinit Hadv Hi Hh Hk.
  pose proof (step_missing _ _ Hi Hh) as Hstep.
  assert (run fuel s0 =
            Some (Raise (NotImplementedError ("missing: " +:+ opname inst)))) as Hrun.
  { replace fuel with (k + S (fuel - S k)) by lia.
    rewrite (run_advance _ _ _ _ Hadv). simpl. by rewrite Hstep. }
  split; [done|]. split; [done|].
  by eapply convert_frame_of_raise.
Qed.

(** The abort needs the step: an instruction without a handler that the
    traced path does not reach leaves the trace alone. *)
Lemma unreached_opcode_does_not_abort :
  @handler_of sample_collaborators "YIELD_VALUE" = None ∧
  ∃ gc, @convert_frame sample_collaborators 9 frame_guarded_yield = Some (Ok gc) ∧
        co_names (co_options (gc_code gc)) = ["__translated_fn_0"] ∧
        mkGuard "flag" LOCAL VALUE_MATCH ∈ gc_guards gc.
Proof.
  split; [reflexivity|]. eexists. split; [vm_compute; reflexivity|].
  split; vm_compute; reflexivity.
Qed.

Lemma missing_opcode_aborts_witness :
  @step sample_collaborators at_yield =
    Raise (NotImplementedError ("missing: " +:+ opname (op0 "YIELD_VALUE"))) ∧
  @run sample_collaborators 9 init_yield =
    Some (Raise (NotImplementedError ("missing: " +:+ opname (op0 "YIELD_VALUE")))) ∧
  @convert_frame sample_collaborators 9 frame_yield =
    Some (Ok (mkGuardedCode (frame_code frame_yield) ∅)).
Proof.
  apply (@missing_opcode_aborts sample_collaborators 9 1 frame_yield init_yield
           at_yield (op0 "YIELD_VALUE")).
  - vm_compute; reflexivity.
  - vm_compute; reflexivity.
  - vm_compute; reflexivity.
  - vm_compute; reflexivity.
  - lia.
Defined.

(** ** Termination *)

(** C10: when every jump target lies strictly after the jumping instruction,
    each step moves the instruction pointer strictly forward, and the loop of
    [run] ends: after at most [n] steps, [n] the number of instructions from
    the pointer to the end of the stream (all of them for a fresh tracer), it
    has returned or raised, or else the fetch that follows the [n]-th step
    runs past the end and raises IndexError. *)
Theorem run_terminates_on_forward_jumps `{Collaborators} s :
  forward_jumps (instructions s) →
  let n := length (instructions s) - instruction_pointer s in
  (∀ b s', step s = Ok (b, s') → instruction_pointer s < instruction_pointer s') ∧
  ∃ r, run (S n) s = Some r ∧ (run n s = Some r ∨ r = Raise IndexError).
Proof.
  intros Hfw n. split.
  - intros b s' Hstep. by destruct (step_pointer _ _ _ Hfw Hstep).
  - by apply run_bounded.
Qed.

Lemma run_terminates_on_forward_jumps_witness :
  let n := length (instructions init_branch) - instruction_pointer init_branch in
  (∀ b s', @step sample_collaborators init_branch = Ok (b, s') →
           instruction_pointer init_branch < instruction_pointer s') ∧
  ∃ r, @run sample_collaborators (S n) init_branch = Some r ∧
       (@run sample_collaborators n init_branch = Some r ∨ r = Raise IndexError).
Proof.
  apply (@run_terminates_on_forward_jumps sample_collaborators init_branch).
  vm_compute; reflexivity.
Defined.

(** ** Guards *)

(** C3: the guard set that a successful trace emits is the union of the
    guards of the value that the final RETURN_VALUE pops and of the guards of
    the values popped by the conditional jumps executed on the way, and
    nothing else. *)
Theorem emitted_guards_exact `{Collaborators} fuel frame gc :
  String.prefix "<eval_with_key>" (co_filename (frame_code frame)) = false →
  convert_frame_assert fuel frame = Some (Ok gc) →
  ∃ s0 sr rv,
    init_of frame = Ok s0 ∧
    last (visited fuel s0) = Some sr ∧
    popped_by "RETURN_VALUE" sr = Some rv ∧
    gc_guards gc = vt_guards rv ∪ ⋃ (jump_guards <$> visited fuel s0).
Proof.
  unfold convert_frame_assert, transform_code_object, transform, init_of.
  intros -> Hc.
  destruct (debug_checks _); [|done].
  destruct (InstructionTracer_init _ _ _ _ _) as [s0|] eqn:Hinit; [|done].
  destruct (run fuel s0) as [[s'|]|] eqn:Hrun; try done.
  injection Hc as <-. simpl.
  apply run_guards in Hrun as (sr & rv & Hlast & Hpop & Hg).
  apply InstructionTracer_init_Ok in Hinit as (_ & _ & _ & Hg0 & _).
  exists s0, sr, rv. repeat (split; [done|]).
  rewrite Hg, Hg0. set_solver.
Qed.

Lemma emitted_guards_exact_witness :
  ∃ s0 sr rv,
    @init_of sample_collaborators frame_branch = Ok s0 ∧
    last (@visited sample_collaborators 9 s0) = Some sr ∧
    popped_by "RETURN_VALUE" sr = Some rv ∧
    gc_guards converted_branch =
      vt_guards rv ∪ ⋃ (jump_guards <$> @visited sample_collaborators 9 s0).
Proof.
  apply (@emitted_guards_exact sample_collaborators 9 frame_branch converted_branch).
  - vm_compute; reflexivity.
  - vm_compute; reflexivity.
Defined.

(** ** The rewritten stream and the code metadata *)

(** C2: a new placeholder goes right behind the last placeholder of the
    graph, or to the very front when there is none; and after a successful
    trace the rewritten stream is: load the new callable, one load per
    captured argument, the call, the return, where the loads come in the
    order of the placeholders in the graph, which is the order of their
    creation (the counter values in the placeholder names increase). The
    local bindings enter as a finite map, so no order among them exists that
    the result could depend on. *)
Theorem captured_arguments_in_placeholder_order `{Collaborators} :
  (∀ name s p s',
     create_graph_input name s = Ok (p, s') →
     ∃ pre post node,
       graph s = pre ++ post ∧ graph s' = pre ++ node :: post ∧
       is_placeholder node = true ∧
       node_target node = placeholder_target name (cnt s) ∧
       placeholders post = [] ∧
       (pre = [] ∨ ∃ pre' l, pre = pre' ++ [l] ∧ is_placeholder l = true)) ∧
  (∀ fuel frame instrs co s',
     transform fuel frame instrs co = Some (Ok s') →
     ∃ load_fn loads ns,
       instructions s' =
         [load_fn] ++ loads ++
         [create_instruction "CALL_FUNCTION" (Some (length loads)) None;
          create_instruction "RETURN_VALUE" None None] ∧
       loads_arg (code_options s') load_fn (GlobalArg (unique_id "__translated_fn")) ∧
       Forall2 (loads_arg (code_options s')) loads (graphargs s') ∧
       length ns = length (graphargs s') ∧
       StronglySorted lt ns ∧
       node_target <$> placeholders (graph s') =
         zip_with (λ a n, placeholder_target (GraphArg_name a) n) (graphargs s') ns).
Proof.
  split.
  - intros name s p s' (pre & post & Hg & -> & Hpost & Hpre)%create_graph_input_Ok.
    eexists pre, post, _. simpl. by repeat (split; [done|]).
  - intros fuel frame instrs co s'. unfold transform.
    destruct (InstructionTracer_init _ _ _ _ _) as [s0|] eqn:Hinit; [|done].
    intros (sr & Hga & Hph & _ & _ & Heff)%run_return.
    apply InstructionTracer_init_Ok in Hinit
      as (_ & _ & _ & _ & _ & ns & Hlen & Hsort & Heq).
    destruct Heff as (p & g & rest & load_fn & loads & _ & _ & _ & Hga' & Hph' &
                      _ & Hins & Hfn & Hloads).
    exists load_fn, loads, ns.
    rewrite Hga in Hga', Hloads, Hins. rewrite Hph in Hph'.
    rewrite Hga', Hph', (Forall2_length _ _ _ Hloads).
    by repeat (split; [done|]).
Qed.

Lemma captured_arguments_in_placeholder_order_witness :
  ∃ load_fn loads ns,
    instructions traced_add =
      [load_fn] ++ loads ++
      [create_instruction "CALL_FUNCTION" (Some (length loads)) None;
       create_instruction "RETURN_VALUE" None None] ∧
    loads_arg (code_options traced_add) load_fn
      (GlobalArg (@unique_id sample_collaborators "__translated_fn")) ∧
    Forall2 (loads_arg (code_options traced_add)) loads (graphargs traced_add) ∧
    length ns = length (graphargs traced_add) ∧
    StronglySorted lt ns ∧
    node_target <$> placeholders (graph traced_add) =
      zip_with (λ a n, placeholder_target (GraphArg_name a) n) (graphargs traced_add) ns.
Proof.
  apply (proj2 (@captured_arguments_in_placeholder_order sample_collaborators)
           9 frame_add (co_instructions (frame_code frame_add))
           (co_options (frame_code frame_add)) traced_add).
  vm_compute; reflexivity.
Defined.

(** C8, as the code has it: a successful trace appends the freshly minted
    name of the callable to the list of global names, leaving the existing
    entries and their order, keeps the variable names, and sets the
    stack-size hint to the number of captured arguments plus one, which is
    what the rewritten stream needs. *)
Theorem rewriter_sets_code_metadata `{Collaborators} fuel frame instrs co s' :
  transform fuel frame instrs co = Some (Ok s') →
  co_names (code_options s') = co_names co ++ [unique_id "__translated_fn"] ∧
  co_varnames (code_options s') = co_varnames co ∧
  co_stacksize (code_options s') = length (graphargs s') + 1.
Proof.
  unfold transform.
  destruct (InstructionTracer_init _ _ _ _ _) as [s0|] eqn:Hinit; [|done].
  intros (sr & Hga & _ & Hco & _ & Heff)%run_return.
  apply InstructionTracer_init_Ok in Hinit as (_ & _ & _ & _ & Hco0 & _).
  destruct Heff as (p & g & rest & load_fn & loads & _ & _ & _ & Hga' & _ &
                    -> & _).
  simpl. rewrite Hga', Hco, Hco0. done.
Qed.

Lemma rewriter_sets_code_metadata_witness :
  co_names (code_options traced_poly) =
    co_names (co_options (frame_code frame_poly)) ++
    [@unique_id sample_collaborators "__translated_fn"] ∧
  co_varnames (code_options traced_poly) =
    co_varnames (co_options (frame_code frame_poly)) ∧
  co_stacksize (code_options traced_poly) = length (graphargs traced_poly) + 1.
Proof.
  apply (@rewriter_sets_code_metadata sample_collaborators 9 frame_poly
           (co_instructions (frame_code frame_poly))
           (co_options (frame_code frame_poly)) traced_poly).
  vm_compute; reflexivity.
Defined.

(** C8, as the claim has it, fails: for [return x + x * x] the stack-size
    hint of the frame is 3 and the one of the rewritten code is 2. *)
Lemma stacksize_hint_can_decrease :
  ¬ (∀ (C : Collaborators) fuel frame gc,
       @convert_frame_assert C fuel frame = Some (Ok gc) →
       co_stacksize (co_options (frame_code frame)) ≤
         co_stacksize (co_options (gc_code gc))).
Proof.
  intros Hclaim.
  assert (@convert_frame_assert sample_collaborators 9 frame_poly =
            Some (Ok converted_poly)) as Hc by (vm_compute; reflexivity).
  apply Hclaim in Hc. vm_compute in Hc. lia.
Qed.

(** ** Branches *)

Lemma dict_set_str_keys {V} k (v : V) d :
  str_keys d → str_keys (dict_set py_eqb (CStr k) v d).
Proof.
  induction 1 as [|[k' v'] d [s Hs] Hd IH]; simpl in *.
  - repeat constructor. by exists k.
  - subst k'. simpl. destruct (String.eqb s k); constructor; simpl; eauto.
Qed.

Lemma dict_get_set_str {V} k q (v : V) d :
  str_keys d →
  dict_get py_eqb (CStr q) (dict_set py_eqb (CStr k) v d) =
    if String.eqb k q then Some v else dict_get py_eqb (CStr q) d.
Proof.
  induction 1 as [|[k' v'] d [s Hs] Hd IH]; simpl in *; [done|].
  subst k'. simpl.
  destruct (String.eqb_spec s k) as [->|Hsk]; simpl.
  - by destruct (String.eqb k q).
  - rewrite IH. destruct (String.eqb_spec s q) as [->|Hsq]; [|done].
    by destruct (String.eqb_spec k q); [congruence|].
Qed.

Section branch_facts.
Context `{Collaborators}.

Lemma run_S fuel s :
  run (S fuel) s =
    match step s with
    | Raise e => Some (Raise e)
    | Ok (true, s') => run fuel s'
    | Ok (false, s') => Some (Ok s')
    end.
Proof. reflexivity. Qed.

Lemma step_at s inst handler :
  instructions s !! instruction_pointer s = Some inst →
  handler_of (opname inst) = Some handler →
  step s =
    match handler inst (set_instruction_pointer (S (instruction_pointer s)) s) with
    | Ok (_, s') => Ok (negb (String.eqb (opname inst) "RETURN_VALUE"), s')
    | Raise e => Raise e
    end.
Proof.
  intros Hi Hh. unfold step, bind, gets, id, modify. rewrite Hi. simpl.
  rewrite Hh. by destruct (handler inst _) as [[[] ?]|].
Qed.

Lemma handler_of_POP_JUMP_IF_FALSE :
  handler_of "POP_JUMP_IF_FALSE" = Some POP_JUMP_IF_FALSE.
Proof. reflexivity. Qed.

Lemma handler_of_LOAD_FAST : handler_of "LOAD_FAST" = Some LOAD_FAST.
Proof. reflexivity. Qed.

Lemma wrap_locals_flag f_locals names acc s locals s' flag b :
  let v := ConstantVariable (CBool b) default_state
             {[ mkGuard flag LOCAL VALUE_MATCH ]} in
  wrap_locals f_locals names acc s = Ok (locals, s') →
  f_locals !! flag = Some (PyConstant (CBool b)) →
  str_keys acc →
  flag ∈ names ∨ dict_get py_eqb (CStr flag) acc = Some v →
  dict_get py_eqb (CStr flag) locals = Some v.
Proof.
  intros v. revert acc s.
  induction names as [|k names IH]; simpl; intros acc s Hw Hflag Hacc Hin.
  - inv_M. destruct Hin as [Hin|]; [|done]. by apply elem_of_nil in Hin.
  - destruct (decide (k = flag)) as [->|Hne].
    + rewrite Hflag in Hw. simpl in Hw. inv_M.
      match goal with Hl : wrap_locals _ _ _ _ = Ok _ |- _ =>
        eapply IH in Hl; eauto using dict_set_str_keys end.
      right. rewrite dict_get_set_str by done. by rewrite String.eqb_refl.
    + assert (flag ∈ names ∨ dict_get py_eqb (CStr flag) acc = Some v) as Hin'.
      { destruct Hin as [[?|?]%elem_of_cons|?]; [congruence|by left|by right]. }
      destruct (f_locals !! k) as [value|]; [|by eapply IH].
      inv_M.
      match goal with Hl : wrap_locals _ _ _ _ = Ok _ |- _ =>
        eapply IH in Hl; eauto using dict_set_str_keys end.
      destruct Hin' as [Hn|Ha]; [by left|right].
      rewrite dict_get_set_str by done.
      by apply String.eqb_neq in Hne as ->.
Qed.

Lemma InstructionTracer_init_flag instrs f_locals globals builtins co s0 flag b :
f_locals !! flag = Some (PyConstant (CBool b)) →
flag ∈ co_varnames co →
InstructionTracer_init instrs f_locals globals builtins co = Ok s0 →
dict_get py_eqb (CStr flag) (symbolic_locals s0) =
  Some (ConstantVariable (CBool b) default_state
          {[ mkGuard flag LOCAL VALUE_MATCH ]}).
Proof.
intros Hflag Hin. unfold InstructionTracer_init.
destruct (wrap_locals _ _ _ _) as [[locals s]|] eqn:Hw; [|done].
intros [= <-]. simpl. eapply wrap_locals_flag; eauto. constructor.
Qed.
End branch_facts.

(** C5: a conditional jump that pops a constant merges the guards of the
    constant into the guards of the trace and goes on, at the jump target
    exactly when the constant is falsy and at the next instruction otherwise;
    one that pops anything else aborts the trace; and when a trace that
    begins by branching on a boolean local succeeds, its guards contain the
    exact-value guard on that local, as they do whenever some conditional
    jump of a successful trace pops the value that the local was wrapped
    into. *)
Theorem conditional_jump_on_constants `{Collaborators} :
  (∀ s inst c st g rest t,
     instructions s !! instruction_pointer s = Some inst →
     opname inst = "POP_JUMP_IF_FALSE" →
     target inst = Some t → t < length (instructions s) →
     stack s = ConstantVariable c st g :: rest →
     ∃ s', step s = Ok (true, s') ∧
           guards s' = guards s ∪ g ∧
           stack s' = rest ∧
           instruction_pointer s' =
             (if truthy c then S (instruction_pointer s) else t)) ∧
  (∀ s inst v rest,
     instructions s !! instruction_pointer s = Some inst →
     opname inst = "POP_JUMP_IF_FALSE" →
     stack s = v :: rest →
     (∀ c st g, v ≠ ConstantVariable c st g) →
     step s = Raise (if is_VariableTracker v
                     then NotImplementedError ("POP_JUMP_IF_FALSE " +:+ class_name v)
                     else AttributeError)) ∧
  (∀ fuel frame flag b load_flag branch rest co s',
     frame_locals frame !! flag = Some (PyConstant (CBool b)) →
     flag ∈ co_varnames co →
     opname load_flag = "LOAD_FAST" → argval load_flag = CStr flag →
     opname branch = "POP_JUMP_IF_FALSE" →
     transform fuel frame (load_flag :: branch :: rest) co = Some (Ok s') →
     mkGuard flag LOCAL VALUE_MATCH ∈ guards s') ∧
  (∀ fuel frame flag b s0 s' sk,
     frame_locals frame !! flag = Some (PyConstant (CBool b)) →
     flag ∈ co_varnames (co_options (frame_code frame)) →
     init_of frame = Ok s0 →
     run fuel s0 = Some (Ok s') →
     sk ∈ visited fuel s0 →
     popped_by "POP_JUMP_IF_FALSE" sk =
       dict_get py_eqb (CStr flag) (symbolic_locals s0) →
     mkGuard flag LOCAL VALUE_MATCH ∈ guards s').
Proof.
  split; [|split; [|split]].
  - intros s inst c st g rest t Hi Hop Ht Hlt Hst.
    rewrite (step_at s inst POP_JUMP_IF_FALSE Hi)
      by (rewrite Hop; apply handler_of_POP_JUMP_IF_FALSE).
    rewrite Hop.
    unfold POP_JUMP_IF_FALSE, jump, bind, pop, get_guards, gets, modify, ret.
    simpl. rewrite Hst. simpl. destruct (truthy c); simpl.
    + by eexists.
    + rewrite Ht. rewrite bool_decide_true by done. by eexists.
  - intros s inst v rest Hi Hop Hst Hv.
    rewrite (step_at s inst POP_JUMP_IF_FALSE Hi)
      by (rewrite Hop; apply handler_of_POP_JUMP_IF_FALSE).
    unfold POP_JUMP_IF_FALSE, bind, pop, get_guards, modify, ret.
    simpl. rewrite Hst. by destruct v; simpl; try done; edestruct Hv.
  - intros fuel frame flag b load_flag branch rest co s' Hflag Hin Hl1 Hl2 Hbr.
    unfold transform.
    destruct (InstructionTracer_init _ _ _ _ _) as [s0|] eqn:Hinit; [|done].
    pose proof (InstructionTracer_init_Ok _ _ _ _ _ _ Hinit)
      as (Hins & Hip & Hst & Hg & _).
    pose proof (InstructionTracer_init_flag _ _ _ _ _ _ _ _ Hflag Hin Hinit) as Hloc.
    destruct fuel as [|fuel]; [done|]. rewrite run_S.
    rewrite (step_at s0 load_flag LOAD_FAST)
      by (rewrite ?Hins, ?Hip, ?Hl1; done || apply handler_of_LOAD_FAST).
    unfold LOAD_FAST, bind, gets, or_raise, push, modify, ret.
    rewrite Hl2. cbn [symbolic_locals set_instruction_pointer].
    rewrite Hloc, Hl1. simpl.
    destruct fuel as [|fuel]; [done|]. rewrite run_S.
    match goal with |- context [step ?s] => set (s1 := s) end.
    destruct (step s1) as [[cont s2]|] eqn:Hstep; [|done].
    apply step_cases in Hstep as (inst & Hi & Hcase).
    subst s1. simpl in Hi. rewrite Hins, Hip in Hi. injection Hi as <-.
    destruct Hcase as [(Hne & _)|[(_ & -> & Heff)|(Hr & _)]]; [done| |congruence].
    intros Hrun%run_guards_mono.
    destruct Heff as (c & st & g & rest' & Hst' & _ & Hg' & _).
    simpl in Hst', Hg'. injection Hst' as <- <- <- <-.
    apply Hrun. rewrite Hg'. set_solver.
  - intros fuel frame flag b s0 s' sk Hflag Hin Hinit Hrun Hsk Hpop.
    rewrite (InstructionTracer_init_flag _ _ _ _ _ _ _ _ Hflag Hin Hinit) in Hpop.
    apply run_guards in Hrun as (sr & rv & _ & _ & ->).
    apply elem_of_union. right. apply elem_of_union. right.
    apply elem_of_union_list. exists (jump_guards sk). split.
    + by apply list_elem_of_fmap_2.
    + unfold jump_guards. rewrite Hpop. simpl. by apply elem_of_singleton.
Qed.

Lemma conditional_jump_on_constants_witness :
  mkGuard "flag" LOCAL VALUE_MATCH ∈ guards traced_branch.
Proof.
  apply (proj1 (proj2 (proj2 (@conditional_jump_on_constants sample_collaborators)))
           9 frame_branch "flag" false (op_name "LOAD_FAST" "flag")
           (op_jump "POP_JUMP_IF_FALSE" 6)
           (drop 2 (co_instructions (frame_code frame_branch)))
           (co_options (frame_code frame_branch)) traced_branch).
  - vm_compute; reflexivity.
  - apply elem_of_cons. by left.
  - reflexivity.
  - reflexivity.
  - reflexivity.
  - vm_compute; reflexivity.
Defined.

(** ** Single handlers *)

Lemma push_each_Ok l s :
  push_each l s = Ok (tt, set_stack (fold_left (λ st v, v :: st) l (stack s)) s).
Proof.
  revert s. induction l as [|v l IH]; intros s; simpl.
  - by rewrite set_stack_same.
  - unfold bind, push, modify. rewrite IH. simpl. by rewrite set_stack_set_stack.
Qed.

Lemma pop_times_app l rest s :
  stack s = l ++ rest → pop_times (length l) s = Ok (l, set_stack rest s).
Proof.
  revert s. induction l as [|v l IH]; intros s Hst; simpl in *.
  - unfold ret. by rewrite <- Hst, set_stack_same.
  - unfold bind, pop. rewrite Hst.
    rewrite (IH (set_stack (l ++ rest) s)) by done.
    unfold ret. by rewrite set_stack_set_stack.
Qed.

Lemma pop_Ok s v st : stack s = v :: st → pop s = Ok (v, set_stack st s).
Proof. intros Hst. unfold pop. by rewrite Hst. Qed.

Lemma bind_eq {A B} (m : M A) (k : A → M B) s a s' :
  m s = Ok (a, s') → bind m k s = k a s'.
Proof. intros Hm. unfold bind. by rewrite Hm. Qed.

Lemma popn_app args rest s :
  stack s = rev args ++ rest →
  popn (Z.of_nat (length args)) s = Ok (args, set_stack rest s).
Proof.
  intros Hst. unfold popn. rewrite Nat2Z.id, <- length_rev.
  rewrite (bind_eq _ _ _ _ _ (pop_times_app _ _ _ Hst)).
  unfold ret. by rewrite rev_involutive.
Qed.

Lemma py_eqb_CInt a c :
  py_eqb (CInt a) c = match as_int c with Some b => Z.eqb a b | None => false end.
Proof. by destruct c. Qed.

(** C6, as the code has it: unpacking a container whose item count differs
    from the declared arity fails the assertion of the handler, an
    AssertionError and not the abort signal of [unimplemented]; nothing is
    truncated. When the counts agree the items are pushed in reverse order,
    which leaves the first item on top. *)
Theorem unpack_sequence_arity inst s kind items st g rest n :
  stack s = ListVariable kind items st g :: rest →
  as_int (argval inst) = Some n →
  (n ≠ Z.of_nat (length items) → UNPACK_SEQUENCE inst s = Raise AssertionError) ∧
  (n = Z.of_nat (length items) →
   UNPACK_SEQUENCE inst s =
     Ok (tt, set_stack (fold_left (λ st v, v :: st) (rev items) rest) s) ∧
   fold_left (λ st v, v :: st) (rev items) rest = items ++ rest).
Proof.
  intros Hst Hn. unfold UNPACK_SEQUENCE, bind, pop. rewrite Hst.
  rewrite py_eqb_CInt, Hn. split; intros Hlen.
  - by destruct (Z.eqb_spec (Z.of_nat (length items)) n); [congruence|].
  - subst n. rewrite Z.eqb_refl. simpl. rewrite push_each_Ok. simpl.
    rewrite set_stack_set_stack. split; [done|].
    rewrite <- fold_left_rev_right, rev_involutive.
    clear. induction items; simpl; congruence.
Qed.

Lemma unpack_sequence_arity_witness :
  (3%Z ≠ Z.of_nat (length [one_const; two_const]) →
   UNPACK_SEQUENCE (op_int "UNPACK_SEQUENCE" 3) unpack_state = Raise AssertionError) ∧
  (3%Z = Z.of_nat (length [one_const; two_const]) →
   UNPACK_SEQUENCE (op_int "UNPACK_SEQUENCE" 3) unpack_state =
     Ok (tt, set_stack (fold_left (λ st v, v :: st) (rev [one_const; two_const]) [])
               unpack_state) ∧
   fold_left (λ st v, v :: st) (rev [one_const; two_const]) [] =
     [one_const; two_const] ++ []).
Proof.
  apply (unpack_sequence_arity (op_int "UNPACK_SEQUENCE" 3) unpack_state
           KList [one_const; two_const] UNKNOWN ∅ [] 3).
  - vm_compute; reflexivity.
  - vm_compute; reflexivity.
Defined.

(** C6, as the claim has it, fails: unpacking three items into two targets
    does not raise the abort signal, it raises AssertionError. *)
Lemma unpack_three_into_two_is_not_unsupported :
  let s := tracer_with
             [ListVariable KList [one_const; two_const; one_const] UNKNOWN ∅] ∅ in
  UNPACK_SEQUENCE (op_int "UNPACK_SEQUENCE" 2) s = Raise AssertionError ∧
  (∀ msg, UNPACK_SEQUENCE (op_int "UNPACK_SEQUENCE" 2) s
          ≠ Raise (NotImplementedError msg)) ∧
  @convert_frame_assert sample_collaborators 9 frame_unpack
    = Some (Raise AssertionError).
Proof.
  intros s.
  assert (UNPACK_SEQUENCE (op_int "UNPACK_SEQUENCE" 2) s = Raise AssertionError)
    as Hu by (vm_compute; reflexivity).
  split; [done|]. split; [by rewrite Hu|].
  vm_compute; reflexivity.
Qed.

(** C7, as the code has it: loading a global that is bound to a tensor, and
    that the allow-list does not accept, fails the [assert False] that guards
    the unfinished path: the handler raises AssertionError, so no argument is
    captured, no placeholder is made, nothing is pushed, and the step that
    executes the instruction ends the trace. *)
Theorem load_global_tensor_asserts `{Collaborators} inst s name id :
  argval inst = CStr name →
  f_globals s !! name = Some (PyTensor id) →
  is_allowed (PyTensor id) = false →
  LOAD_GLOBAL inst s = Raise AssertionError ∧
  (instructions s !! instruction_pointer s = Some inst →
   opname inst = "LOAD_GLOBAL" →
   step s = Raise AssertionError).
Proof.
  intros Hav Hg Hal.
  assert (∀ s1, f_globals s1 = f_globals s →
                LOAD_GLOBAL inst s1 = Raise AssertionError) as Hload.
  { intros s1 Hs1. unfold LOAD_GLOBAL, bind, gets. rewrite Hav, Hs1, Hg, Hal. done. }
  split; [by apply Hload|].
  intros Hi Hop. rewrite (step_at s inst LOAD_GLOBAL Hi) by (by rewrite Hop).
  by rewrite Hload.
Qed.

Lemma load_global_tensor_asserts_witness :
  @LOAD_GLOBAL sample_collaborators (op_name "LOAD_GLOBAL" "w") global_tensor_state
    = Raise AssertionError ∧
  (instructions global_tensor_state !! instruction_pointer global_tensor_state
     = Some (op_name "LOAD_GLOBAL" "w") →
   opname (op_name "LOAD_GLOBAL" "w") = "LOAD_GLOBAL" →
   @step sample_collaborators global_tensor_state = Raise AssertionError).
Proof.
  apply (@load_global_tensor_asserts sample_collaborators
           (op_name "LOAD_GLOBAL" "w") global_tensor_state "w" 7).
  - reflexivity.
  - vm_compute; reflexivity.
  - reflexivity.
Defined.

(** C7, as the claim has it, fails: the handler does not push anything for a
    global tensor and the trace does not go on; the conversion of a frame
    that reads one ends in AssertionError. *)
Lemma load_global_tensor_does_not_continue :
  @LOAD_GLOBAL sample_collaborators (op_name "LOAD_GLOBAL" "w") global_tensor_state
    = Raise AssertionError ∧
  (∀ s', @LOAD_GLOBAL sample_collaborators (op_name "LOAD_GLOBAL" "w")
           global_tensor_state ≠ Ok (tt, s')) ∧
  @convert_frame_assert sample_collaborators 9 frame_global_tensor
    = Some (Raise AssertionError).
Proof.
  assert (@LOAD_GLOBAL sample_collaborators (op_name "LOAD_GLOBAL" "w")
            global_tensor_state = Raise AssertionError) as Hl
    by (vm_compute; reflexivity).
  split; [done|]. split; [by rewrite Hl|].
  vm_compute; reflexivity.
Qed.

(** C9: a keyword call whose tuple of keyword names is empty passes none of
    its [n > 0] popped arguments on: the callable is dispatched with no
    positional and no keyword arguments. *)
Theorem call_function_kw_empty_names_drops_arguments `{Collaborators}
    inst s n args fn rest st g :
  as_int (argval inst) = Some (Z.of_nat n) →
  0 < n →
  length args = n →
  stack s = ConstantVariable (CTuple []) st g :: rev args ++ fn :: rest →
  CALL_FUNCTION_KW inst s = call_function fn [] [] (set_stack rest s).
Proof.
  intros Hn Hpos Hlen Hst.
  unfold CALL_FUNCTION_KW.
  rewrite (bind_eq _ _ _ _ _ (pop_Ok _ _ _ Hst)).
  unfold int_operand. rewrite Hn.
  erewrite (bind_eq (or_raise _ _)); [|reflexivity].
  rewrite <- Hlen.
  erewrite (bind_eq (popn _)); [|apply (popn_app args (fn :: rest)); reflexivity].
  erewrite (bind_eq pop); [|apply pop_Ok; reflexivity].
  rewrite !set_stack_set_stack.
  unfold bind, or_raise, ret, slice_to, slice_from, slice_index. simpl.
  by rewrite Nat.min_0_r.
Qed.

Lemma call_function_kw_empty_names_drops_arguments_witness :
  @CALL_FUNCTION_KW sample_collaborators (op_int "CALL_FUNCTION_KW" 2) kw_call_state =
    @call_function sample_collaborators
      (AllowedFunctionOrModuleVariable (PyObject 0) YES ∅) [] []
      (set_stack [] kw_call_state).
Proof.
  apply (@call_function_kw_empty_names_drops_arguments sample_collaborators
           (op_int "CALL_FUNCTION_KW" 2) kw_call_state 2 [one_const; two_const]
           (AllowedFunctionOrModuleVariable (PyObject 0) YES ∅) [] UNKNOWN ∅).
  - reflexivity.
  - lia.
  - reflexivity.
  - reflexivity.
Defined.

(** * Further properties of the handlers and of whole traces *)

(** ** The operand stack *)

Lemma pop_times_short k s :
  length (stack s) < k → pop_times k s = Raise IndexError.
Proof.
  revert s. induction k as [|k IH]; intros s Hlen; [lia|].
  simpl. unfold bind, pop. destruct (stack s) as [|v st] eqn:Hst; [done|].
  simpl in Hlen. rewrite IH; [done|]. simpl. lia.
Qed.

(** X1: [popn(n)] hands back the [n] topmost values, the deepest first, and
    takes them off the stack; on a stack with fewer than [n] values it raises
    IndexError. A negative [n] pops nothing. *)
Theorem popn_takes_the_top s n :
  let k := Z.to_nat n in
  (k ≤ length (stack s) →
   popn n s = Ok (rev (take k (stack s)), set_stack (drop k (stack s)) s)) ∧
  (length (stack s) < k → popn n s = Raise IndexError).
Proof.
  intros k. split; intros Hk; unfold popn, bind; fold k.
  - rewrite <- (length_take_le (stack s) k) at 1 by done.
    rewrite (pop_times_app (take k (stack s)) (drop k (stack s)))
      by (by rewrite take_drop).
    done.
  - by rewrite pop_times_short.
Qed.

Lemma popn_takes_the_top_witness :
  let k := Z.to_nat 2 in
  (k ≤ length (stack stack_state) →
   popn 2 stack_state =
     Ok (rev (take k (stack stack_state)),
         set_stack (drop k (stack stack_state)) stack_state)) ∧
  (length (stack stack_state) < k → popn 2 stack_state = Raise IndexError).
Proof. apply (popn_takes_the_top stack_state 2). Defined.

Lemma set_stack_eq s st : stack s = st → set_stack st s = s.
Proof. intros <-. apply set_stack_same. Qed.

(** Run the first handler of a sequence, or the last one, by its effect. *)
Ltac op_step L :=
  erewrite (bind_eq _); [|eapply L; first [eassumption | reflexivity]].
Ltac op_last L Hst :=
  erewrite L; [|first [eassumption | reflexivity]];
  rewrite ?set_stack_set_stack; by rewrite (set_stack_eq _ _ Hst).

Lemma ROT_TWO_Ok inst s a b rest :
  stack s = a :: b :: rest → ROT_TWO inst s = Ok (tt, set_stack (b :: a :: rest) s).
Proof.
  intros Hst. unfold ROT_TWO, bind, pop, push, modify. rewrite Hst. simpl.
  by rewrite !set_stack_set_stack.
Qed.

Lemma ROT_THREE_Ok inst s a b c rest :
  stack s = a :: b :: c :: rest →
  ROT_THREE inst s = Ok (tt, set_stack (b :: c :: a :: rest) s).
Proof.
  intros Hst. unfold ROT_THREE, bind, pop, push, modify. rewrite Hst. simpl.
  by rewrite !set_stack_set_stack.
Qed.

Lemma ROT_FOUR_Ok inst s a b c d rest :
  stack s = a :: b :: c :: d :: rest →
  ROT_FOUR inst s = Ok (tt, set_stack (b :: c :: d :: a :: rest) s).
Proof.
  intros Hst. unfold ROT_FOUR, bind, pop, push, modify. rewrite Hst. simpl.
  by rewrite !set_stack_set_stack.
Qed.

(** X2: ROT_TWO swaps the two topmost values, ROT_THREE and ROT_FOUR move
    the top value below the next two or three; applying a rotation of [k]
    values [k] times gives the stack back. *)
Theorem rotations_cycle inst s a b c d rest :
  (stack s = a :: b :: rest →
   ROT_TWO inst s = Ok (tt, set_stack (b :: a :: rest) s) ∧
   (ROT_TWO inst;;; ROT_TWO inst) s = Ok (tt, s)) ∧
  (stack s = a :: b :: c :: rest →
   ROT_THREE inst s = Ok (tt, set_stack (b :: c :: a :: rest) s) ∧
   (ROT_THREE inst;;; ROT_THREE inst;;; ROT_THREE inst) s = Ok (tt, s)) ∧
  (stack s = a :: b :: c :: d :: rest →
   ROT_FOUR inst s = Ok (tt, set_stack (b :: c :: d :: a :: rest) s) ∧
   (ROT_FOUR inst;;; ROT_FOUR inst;;; ROT_FOUR inst;;; ROT_FOUR inst) s = Ok (tt, s)).
Proof.
  split; [|split]; intros Hst; split.
  - by apply ROT_TWO_Ok.
  - op_step ROT_TWO_Ok. op_last ROT_TWO_Ok Hst.
  - by apply ROT_THREE_Ok.
  - do 2 op_step ROT_THREE_Ok. op_last ROT_THREE_Ok Hst.
  - by apply ROT_FOUR_Ok.
  - do 3 op_step ROT_FOUR_Ok. op_last ROT_FOUR_Ok Hst.
Qed.

Lemma rotations_cycle_witness :
  ROT_THREE (op0 "ROT_THREE") stack_state =
    Ok (tt, set_stack [two_const; three_const; one_const] stack_state) ∧
  (ROT_THREE (op0 "ROT_THREE");;; ROT_THREE (op0 "ROT_THREE");;;
   ROT_THREE (op0 "ROT_THREE")) stack_state = Ok (tt, stack_state).
Proof.
  apply (proj1 (proj2 (rotations_cycle (op0 "ROT_THREE") stack_state
                         one_const two_const three_const one_const [])) eq_refl).
Defined.

Lemma POP_TOP_Ok inst s a rest :
  stack s = a :: rest → POP_TOP inst s = Ok (tt, set_stack rest s).
Proof. intros Hst. unfold POP_TOP, bind, pop, ret. by rewrite Hst. Qed.

Lemma DUP_TOP_Ok inst s a rest :
  stack s = a :: rest → DUP_TOP inst s = Ok (tt, set_stack (a :: a :: rest) s).
Proof.
  intros Hst. unfold DUP_TOP, bind, pop, push, modify. rewrite Hst. simpl.
  by rewrite !set_stack_set_stack.
Qed.

Lemma DUP_TOP_TWO_Ok inst s a b rest :
  stack s = a :: b :: rest →
  DUP_TOP_TWO inst s = Ok (tt, set_stack (a :: b :: a :: b :: rest) s).
Proof.
  intros Hst. unfold DUP_TOP_TWO, bind, pop, push, modify. rewrite Hst. simpl.
  by rewrite !set_stack_set_stack.
Qed.

(** X3: DUP_TOP followed by POP_TOP, and DUP_TOP_TWO followed by two POP_TOPs,
    leave the tracer as it was; DUP_TOP_TWO repeats the two topmost values in
    their order. *)
Theorem duplicates_are_undone_by_pops inst s a b rest :
  (stack s = a :: rest →
   (DUP_TOP inst;;; POP_TOP inst) s = Ok (tt, s)) ∧
  (stack s = a :: b :: rest →
   DUP_TOP_TWO inst s = Ok (tt, set_stack (a :: b :: a :: b :: rest) s) ∧
   (DUP_TOP_TWO inst;;; POP_TOP inst;;; POP_TOP inst) s = Ok (tt, s)).
Proof.
  split; intros Hst; [|split].
  - op_step DUP_TOP_Ok. op_last POP_TOP_Ok Hst.
  - by apply DUP_TOP_TWO_Ok.
  - op_step DUP_TOP_TWO_Ok. op_step POP_TOP_Ok. op_last POP_TOP_Ok Hst.
Qed.

Lemma duplicates_are_undone_by_pops_witness :
  DUP_TOP_TWO (op0 "DUP_TOP_TWO") stack_state =
    Ok (tt, set_stack [one_const; two_const; one_const; two_const; three_const]
              stack_state) ∧
  (DUP_TOP_TWO (op0 "DUP_TOP_TWO");;; POP_TOP (op0 "POP_TOP");;;
   POP_TOP (op0 "POP_TOP")) stack_state = Ok (tt, stack_state).
Proof.
  apply (proj2 (duplicates_are_undone_by_pops (op0 "DUP_TOP_TWO") stack_state
                  one_const two_const [three_const]) eq_refl).
Defined.

(** ** Local bindings *)

Lemma py_eqb_refl : ∀ c, py_eqb c c = true.
Proof.
  fix IH 1. intros [|b|z|s|l]; simpl.
  - done.
  - apply Z.eqb_refl.
  - apply Z.eqb_refl.
  - apply String.eqb_refl.
  - revert l. fix IHl 1. intros [|x l]; [done|].
    by rewrite (IH x), (IHl l).
Qed.

Lemma dict_get_set_same {V} k (v : V) d :
  dict_get py_eqb k (dict_set py_eqb k v d) = Some v.
Proof.
  induction d as [|[k' v'] d IH]; simpl.
  - by rewrite py_eqb_refl.
  - destruct (py_eqb k' k) eqn:Hk; simpl; by rewrite Hk.
Qed.

(** X4: STORE_FAST followed by LOAD_FAST of the same operand binds the name
    to the value on top of the stack and leaves the stack as it was: the
    binding just stored is the one that is read. *)
Theorem store_then_load_round_trip inst s v rest :
  stack s = v :: rest →
  (STORE_FAST inst;;; LOAD_FAST inst) s =
    Ok (tt, set_symbolic_locals
              (dict_set py_eqb (argval inst) v (symbolic_locals s)) s).
Proof.
  intros Hst. unfold STORE_FAST, LOAD_FAST, bind, pop, push, modify, gets, or_raise.
  rewrite Hst. simpl. rewrite dict_get_set_same. simpl.
  destruct s; simpl in *; by subst.
Qed.

Lemma store_then_load_round_trip_witness :
  (STORE_FAST (op_name "STORE_FAST" "a");;; LOAD_FAST (op_name "STORE_FAST" "a"))
    stack_state =
    Ok (tt, set_symbolic_locals
              (dict_set py_eqb (argval (op_name "STORE_FAST" "a")) one_const
                 (symbolic_locals stack_state)) stack_state).
Proof.
  apply (store_then_load_round_trip (op_name "STORE_FAST" "a") stack_state
           one_const [two_const; three_const]).
  reflexivity.
Defined.

(** ** Calls and containers *)

Lemma call_function_stack_only `{Collaborators} inst s n args fn rest :
  as_int (argval inst) = Some (Z.of_nat n) →
  length args = n →
  stack s = rev args ++ fn :: rest →
  CALL_FUNCTION inst s = call_function fn args [] (set_stack rest s).
Proof.
  intros Hn Hlen Hst. unfold CALL_FUNCTION, int_operand. rewrite Hn.
  erewrite (bind_eq (or_raise _ _)); [|reflexivity].
  rewrite <- Hlen.
  erewrite (bind_eq (popn _)); [|by apply (popn_app args (fn :: rest))].
  erewrite (bind_eq pop); [|apply pop_Ok; reflexivity].
  by rewrite set_stack_set_stack.
Qed.

(** X5: CALL_METHOD is CALL_FUNCTION with the placeholder that LOAD_METHOD
    pushed taken out from under the arguments: with the bare [None] there it
    dispatches the callable below it on the same arguments, and with anything
    else there it fails its assertion. *)
Theorem call_method_is_call_function `{Collaborators} inst s n args dummy fn rest :
  as_int (argval inst) = Some (Z.of_nat n) →
  length args = n →
  stack s = rev args ++ dummy :: fn :: rest →
  CALL_METHOD inst s =
    if is_VariableTracker dummy then Raise AssertionError
    else CALL_FUNCTION inst (set_stack (rev args ++ fn :: rest) s).
Proof.
  intros Hn Hlen Hst.
  erewrite (call_function_stack_only inst _ n args fn rest Hn Hlen) by reflexivity.
  unfold CALL_METHOD, int_operand. rewrite Hn.
  erewrite (bind_eq (or_raise _ _)); [|reflexivity].
  rewrite <- Hlen.
  erewrite (bind_eq (popn _)); [|by apply (popn_app args (dummy :: fn :: rest))].
  erewrite (bind_eq pop); [|apply pop_Ok; reflexivity].
  destruct (is_VariableTracker dummy); simpl; [done|].
  unfold assert. erewrite (bind_eq (ret _)); [|reflexivity].
  erewrite (bind_eq pop); [|apply pop_Ok; reflexivity].
  by rewrite !set_stack_set_stack.
Qed.

Lemma call_method_is_call_function_witness :
  @CALL_METHOD sample_collaborators (op_int "CALL_METHOD" 2) method_call_state =
    if is_VariableTracker RawNone then Raise AssertionError
    else @CALL_FUNCTION sample_collaborators (op_int "CALL_METHOD" 2)
           (set_stack (rev [one_const; two_const] ++ [sample_callable])
              method_call_state).
Proof.
  apply (@call_method_is_call_function sample_collaborators
           (op_int "CALL_METHOD" 2) method_call_state 2 [one_const; two_const]
           RawNone sample_callable []).
  - reflexivity.
  - reflexivity.
  - reflexivity.
Defined.

(** X6: building a list, tuple or slice of the [n] topmost values and
    unpacking it right away into [n] targets reverses those [n] values on the
    stack (the first item ends on top) and touches nothing else. *)
Theorem build_then_unpack_reverses `{Collaborators} kind build unpack s n items rest
    options :
  as_int (argval build) = Some (Z.of_nat n) →
  as_int (argval unpack) = Some (Z.of_nat n) →
  length items = n →
  stack s = rev items ++ rest →
  propagate items = Ok options →
  (build_seq kind build;;; UNPACK_SEQUENCE unpack) s =
    Ok (tt, set_stack (items ++ rest) s).
Proof.
  intros Hb Hu Hlen Hst Hprop.
  assert (build_seq kind build s =
            Ok (tt, set_stack (ListVariable kind items (opt_state options)
                                 (opt_guards options) :: rest) s)) as Hbuild.
  { unfold build_seq, int_operand. rewrite Hb.
    erewrite (bind_eq (or_raise _ _)); [|reflexivity].
    rewrite <- Hlen.
    erewrite (bind_eq (popn _)); [|by apply (popn_app items rest)].
    rewrite Hprop. erewrite (bind_eq (lift _)); [|reflexivity].
    unfold push, modify. simpl. by rewrite set_stack_set_stack. }
  rewrite (bind_eq _ _ _ _ _ Hbuild).
  unfold UNPACK_SEQUENCE. erewrite (bind_eq pop); [|apply pop_Ok; reflexivity].
  cbn beta iota. rewrite py_eqb_CInt, Hu, Hlen, Z.eqb_refl.
  unfold assert. erewrite (bind_eq (ret _)); [|reflexivity].
  rewrite push_each_Ok. simpl. rewrite !set_stack_set_stack.
  rewrite <- fold_left_rev_right, rev_involutive.
  do 3 f_equal. clear. induction items; simpl; congruence.
Qed.

Lemma build_then_unpack_reverses_witness :
  (@build_seq sample_collaborators KTuple (op_int "BUILD_TUPLE" 2);;;
   UNPACK_SEQUENCE (op_int "UNPACK_SEQUENCE" 2)) swap_state =
    Ok (tt, set_stack ([one_const; two_const] ++ [three_const]) swap_state).
Proof.
  apply (@build_then_unpack_reverses sample_collaborators KTuple
           (op_int "BUILD_TUPLE" 2) (op_int "UNPACK_SEQUENCE" 2) swap_state 2
           [one_const; two_const] [three_const] (mkOptions UNKNOWN ∅)).
  - reflexivity.
  - reflexivity.
  - reflexivity.
  - reflexivity.
  - vm_compute; reflexivity.
Defined.

Lemma dict_set_length {K V} (eqb : K → K → bool) k (v : V) d :
  length (dict_set eqb k v d) ≤ S (length d).
Proof.
  induction d as [|[k' v'] d IH]; simpl; [lia|].
  destruct (eqb k' k); simpl; lia.
Qed.

Lemma dict_of_pairs_length {K V} (eqb : K → K → bool) (l : list (K * V)) :
  length (dict_of_pairs eqb l) ≤ length l.
Proof.
  unfold dict_of_pairs.
  assert (∀ d, length (fold_left (λ d kv, dict_set eqb kv.1 kv.2 d) l d)
               ≤ length d + length l) as Hgen.
  { induction l as [|kv l IH]; intros d; simpl; [lia|].
    specialize (IH (dict_set eqb kv.1 kv.2 d)).
    pose proof (dict_set_length eqb kv.1 kv.2 d). lia. }
  apply (Hgen []).
Qed.

Lemma dict_set_fresh {V} k (v : V) d :
  Forall (λ kv, py_eqb kv.1 k = false) d →
  dict_set py_eqb k v d = d ++ [(k, v)].
Proof.
  induction 1 as [|[k' v'] d Hk Hd IH]; simpl in *; [done|].
  by rewrite Hk, IH.
Qed.

Lemma dict_of_pairs_distinct_names {V} names (vals : list V) :
  NoDup names →
  dict_of_pairs py_eqb (zip (CStr <$> names) vals) = zip (CStr <$> names) vals.
Proof.
  unfold dict_of_pairs. intros Hnd.
  assert (∀ d : list (PyConst * V),
            Forall (λ kv, ∀ k, k ∈ names → py_eqb kv.1 (CStr k) = false) d →
            fold_left (λ d kv, dict_set py_eqb kv.1 kv.2 d)
              (zip (CStr <$> names) vals) d = d ++ zip (CStr <$> names) vals)
    as Hgen.
  { revert vals. induction Hnd as [|k names Hk Hnd IH]; intros vals d Hd.
    - simpl. by rewrite app_nil_r.
    - destruct vals as [|v vals]; simpl; [by rewrite app_nil_r|].
      rewrite dict_set_fresh.
      + rewrite IH; [by rewrite <- app_assoc|].
        apply Forall_app. split.
        * eapply Forall_impl; [exact Hd|]. intros kv Hkv k' Hk'.
          apply Hkv. apply elem_of_cons. by right.
        * repeat constructor. simpl. intros k' Hk'.
          apply String.eqb_neq. by intros ->.
      + eapply Forall_impl; [exact Hd|]. intros kv Hkv.
        apply Hkv. apply elem_of_cons. by left. }
  apply (Hgen []). constructor.
Qed.

Lemma CALL_FUNCTION_KW_pops `{Collaborators} inst s n args names fn rest st g :
  as_int (argval inst) = Some (Z.of_nat n) →
  length args = n →
  stack s = ConstantVariable (CTuple names) st g :: rev args ++ fn :: rest →
  CALL_FUNCTION_KW inst s =
    let k := Z.of_nat (length names) in
    let kwargs := dict_of_pairs py_eqb (zip names (slice_from (- k) args)) in
    (assert (Nat.eqb (length kwargs) (length names));;;
     call_function fn (slice_to (- k) args) kwargs) (set_stack rest s).
Proof.
  intros Hn Hlen Hst. unfold CALL_FUNCTION_KW.
  rewrite (bind_eq _ _ _ _ _ (pop_Ok _ _ _ Hst)).
  unfold int_operand. rewrite Hn.
  erewrite (bind_eq (or_raise _ _)); [|reflexivity].
  rewrite <- Hlen.
  erewrite (bind_eq (popn _)); [|apply (popn_app args (fn :: rest)); reflexivity].
  erewrite (bind_eq pop); [|apply pop_Ok; reflexivity].
  rewrite !set_stack_set_stack. cbn beta iota. simpl py_iter.
  erewrite (bind_eq (or_raise _ _)); [|reflexivity]. reflexivity.
Qed.

(** X7: a keyword call with [k] keyword names and [n] popped arguments fails
    its assertion when there are more names than arguments; with pairwise
    distinct names and [0 < k <= n] it dispatches the callable with the first
    [n - k] arguments positionally and the last [k] by keyword, under the
    names in their order. *)
Theorem call_function_kw_splits_arguments `{Collaborators}
    inst s n args names fn rest st g :
  as_int (argval inst) = Some (Z.of_nat n) →
  length args = n →
  stack s = ConstantVariable (CTuple (CStr <$> names)) st g
              :: rev args ++ fn :: rest →
  let k := length names in
  (n < k → CALL_FUNCTION_KW inst s = Raise AssertionError) ∧
  (0 < k ≤ n → NoDup names →
   CALL_FUNCTION_KW inst s =
     call_function fn (take (n - k) args)
       (zip (CStr <$> names) (drop (n - k) args)) (set_stack rest s)).
Proof.
  intros Hn Hlen Hst k.
  rewrite (CALL_FUNCTION_KW_pops inst s n args _ fn rest st g Hn Hlen Hst).
  cbn zeta. rewrite length_fmap. fold k.
  unfold slice_to, slice_from, slice_index. rewrite Hlen.
  split.
  - intros Hk.
    destruct (Z.ltb_spec (- Z.of_nat k) 0) as [_|?]; [|lia].
    replace (Z.to_nat (Z.max 0 (Z.of_nat n + - Z.of_nat k))) with 0 by lia.
    rewrite drop_0.
    pose proof (dict_of_pairs_length py_eqb (zip (CStr <$> names) args)) as Hle.
    rewrite length_zip_with, length_fmap in Hle. fold k in Hle.
    destruct (Nat.eqb_spec
                (length (dict_of_pairs py_eqb (zip (CStr <$> names) args))) k)
      as [Heq|_]; [lia|done].
  - intros Hk Hnd.
    destruct (Z.ltb_spec (- Z.of_nat k) 0) as [_|?]; [|lia].
    replace (Z.to_nat (Z.max 0 (Z.of_nat n + - Z.of_nat k))) with (n - k) by lia.
    rewrite dict_of_pairs_distinct_names by done.
    rewrite length_zip_with, length_fmap, length_drop, Hlen. fold k.
    replace (k `min` (n - (n - k))) with k by lia.
    rewrite Nat.eqb_refl. unfold assert.
    erewrite (bind_eq (ret _)); [|reflexivity]. reflexivity.
Qed.

Lemma call_function_kw_splits_arguments_witness :
  @CALL_FUNCTION_KW sample_collaborators (op_int "CALL_FUNCTION_KW" 2)
    kw_names_state =
    @call_function sample_collaborators sample_callable
      (take (2 - 1) [one_const; two_const])
      (zip (CStr <$> ["dim"]) (drop (2 - 1) [one_const; two_const]))
      (set_stack [] kw_names_state).
Proof.
  apply (proj2 (@call_function_kw_splits_arguments sample_collaborators
                  (op_int "CALL_FUNCTION_KW" 2) kw_names_state 2
                  [one_const; two_const] ["dim"] sample_callable [] UNKNOWN ∅
                  eq_refl eq_refl eq_refl)).
  - simpl. lia.
  - repeat constructor. by intros ?%elem_of_nil.
Defined.

(** X8: LOAD_GLOBAL succeeds for one kind of global only: a value that the
    allow-list accepts, which it pushes with the FUNCTION_MATCH guard on the
    global name. A name that is bound in the builtins and not in the globals
    always aborts the trace, with the signal that names it; a name bound in
    neither fails the assertion. *)
Theorem load_global_pushes_only_allowed `{Collaborators} inst s :
  (∀ s', LOAD_GLOBAL inst s = Ok (tt, s') →
         ∃ name value,
           argval inst = CStr name ∧
           f_globals s !! name = Some value ∧
           is_allowed value = true ∧
           s' = set_stack
                  (AllowedFunctionOrModuleVariable value YES
                     {[ mkGuard name GLOBAL FUNCTION_MATCH ]} :: stack s) s) ∧
  (∀ name, argval inst = CStr name → f_globals s !! name = None →
           LOAD_GLOBAL inst s =
             if bool_decide (is_Some (f_builtins s !! name))
             then Raise (NotImplementedError ("load_builtin: " +:+ name))
             else Raise AssertionError).
Proof.
  split.
  - intros s'. unfold LOAD_GLOBAL, load_builtin, bind, gets, assert.
    destruct (argval inst) as [| | |name|] eqn:Hav;
      try (by destruct (bool_decide _)); try done.
    destruct (f_globals s !! name) as [value|] eqn:Hg.
    + destruct (is_allowed value) eqn:Hal.
      * unfold push, modify. intros [= <-]. by exists name, value.
      * by destruct value.
    + by destruct (bool_decide _).
  - intros name Hav Hg. unfold LOAD_GLOBAL, load_builtin, bind, gets.
    rewrite Hav, Hg. unfold assert.
    by destruct (bool_decide _).
Qed.

Lemma load_global_pushes_only_allowed_witness :
  ∃ name value,
    argval (op_name "LOAD_GLOBAL" "torch") = CStr name ∧
    f_globals allowed_global_state !! name = Some value ∧
    @is_allowed sample_collaborators value = true ∧
    set_stack [AllowedFunctionOrModuleVariable (PyObject 0) YES
                 {[ mkGuard "torch" GLOBAL FUNCTION_MATCH ]}] allowed_global_state =
      set_stack
        (AllowedFunctionOrModuleVariable value YES
           {[ mkGuard name GLOBAL FUNCTION_MATCH ]} :: stack allowed_global_state)
        allowed_global_state.
Proof.
  apply (proj1 (@load_global_pushes_only_allowed sample_collaborators
                  (op_name "LOAD_GLOBAL" "torch") allowed_global_state)).
  vm_compute; reflexivity.
Defined.

(** ** The end of a trace and the module registry *)

Lemma RETURN_VALUE_pop `{Collaborators} inst s rv rest :
  stack s = rv :: rest →
  RETURN_VALUE inst s =
    (st <- get_state rv;;
     match st with
     | YES =>
         match rv with
         | TensorVariable proxy _ _ =>
             create_node "output" (TName "output") [ArgNode proxy] [];;; ret tt
         | _ => unimplemented ("RETURN_VALUE " +:+ class_name rv)
         end;;;
         modify (λ s, set_guards (guards s ∪ vt_guards rv) s);;;
         mods <- gets nn_modules;;
         lift (FakeRootModule None mods);;;
         let name := unique_id "__translated_fn" in
         modify (λ s, set_f_globals (<[name := PyCompiled name]> (f_globals s)) s);;;
         modify (λ s, set_code_options
                        (mkCodeOptions (co_names (code_options s) ++ [name])
                           (co_varnames (code_options s))
                           (co_stacksize (code_options s))) s);;;
         modify (λ s, set_code_options
                        (mkCodeOptions (co_names (code_options s))
                           (co_varnames (code_options s))
                           (length (graphargs s) + 1)) s);;;
         load_fn <- create_load_global name;;
         gargs <- gets graphargs;;
         loads <- load_each gargs;;
         modify (set_instructions
                   ([load_fn] ++ loads ++
                    [create_instruction "CALL_FUNCTION" (Some (length gargs)) None;
                     create_instruction "RETURN_VALUE" None None]))
     | _ => unimplemented "not traceable"
     end) (set_stack rest s).
Proof.
  intros Hst. unfold RETURN_VALUE.
  by rewrite (bind_eq _ _ _ _ _ (pop_Ok _ _ _ Hst)).
Qed.

(** X9: RETURN_VALUE translates nothing but a tensor whose tracing state is
    YES. The bare None has no state and raises AttributeError, a value in
    another state aborts with "not traceable", a value of another class with
    the signal that names the class; so a function that returns a literal is
    never translated. *)
Theorem return_value_needs_traceable_tensor `{Collaborators} inst s rv rest :
  stack s = rv :: rest →
  (rv = RawNone → RETURN_VALUE inst s = Raise AttributeError) ∧
  (is_VariableTracker rv = true → vt_state rv ≠ YES →
   RETURN_VALUE inst s = Raise (NotImplementedError "not traceable")) ∧
  (vt_state rv = YES → class_name rv ≠ "TensorVariable" →
   RETURN_VALUE inst s =
     Raise (NotImplementedError ("RETURN_VALUE " +:+ class_name rv))) ∧
  (∀ load, (LOAD_CONST load;;; RETURN_VALUE inst) s =
             Raise (NotImplementedError "not traceable")).
Proof.
  intros Hst. split; [|split; [|split]].
  - intros ->. by rewrite (RETURN_VALUE_pop inst s _ rest Hst).
  - intros Hvt Hno. rewrite (RETURN_VALUE_pop inst s _ rest Hst).
    unfold get_state, bind. rewrite Hvt. unfold ret.
    by destruct (vt_state rv).
  - intros Hyes Hcls. rewrite (RETURN_VALUE_pop inst s _ rest Hst).
    unfold get_state.
    assert (is_VariableTracker rv = true) as -> by (by destruct rv).
    erewrite (bind_eq (ret _)); [|reflexivity]. rewrite Hyes.
    destruct rv as [| | | |[] | | |]; try done.
  - intros load.
    erewrite (bind_eq (LOAD_CONST _)); [|reflexivity].
    erewrite RETURN_VALUE_pop; [|reflexivity]. done.
Qed.

Lemma return_value_needs_traceable_tensor_witness :
  @RETURN_VALUE sample_collaborators (op0 "RETURN_VALUE") const_stack_state =
    Raise (NotImplementedError
             ("RETURN_VALUE " +:+ class_name (ConstantVariable (CInt 1) YES ∅))).
Proof.
  apply (proj1 (proj2 (proj2
           (@return_value_needs_traceable_tensor sample_collaborators
              (op0 "RETURN_VALUE") const_stack_state
              (ConstantVariable (CInt 1) YES ∅) [] eq_refl)))).
  - reflexivity.
  - discriminate.
Defined.

Lemma FakeRootModule_cases tr mods :
  FakeRootModule tr mods = Ok tt ∨ FakeRootModule tr mods = Raise AssertionError.
Proof.
  revert tr. induction mods as [|[k v] mods IH]; intros tr; simpl; [by left|].
  destruct tr, v; try apply IH.
  destruct (Bool.eqb _ _); [apply IH | by right].
Qed.

Lemma FakeRootModule_Some_Ok t mods :
  FakeRootModule (Some t) mods = Ok tt ↔
  ∀ k i t', (k, PyModule i t') ∈ mods → t' = t.
Proof.
  revert t. induction mods as [|[k v] mods IH]; intros t; simpl.
  - split; [|done]. by intros _ ? ? ? ?%elem_of_nil.
  - assert ((∀ k0 i t', (k0, PyModule i t') ∈ (k, v) :: mods → t' = t) ↔
            (∀ i t', v = PyModule i t' → t' = t) ∧
            (∀ k0 i t', (k0, PyModule i t') ∈ mods → t' = t)) as ->.
    { split.
      - intros Hall. split.
        + intros i t' ->. apply (Hall k i). by left.
        + intros k0 i t' Hin. apply (Hall k0 i). by right.
      - intros [Hv Hm] k0 i t' [[= -> <-]|Hin]%elem_of_cons; eauto. }
    destruct v as [| |i t'| |]; try (rewrite IH; split; [by split|by intros [_ ?]]).
    destruct (Bool.eqb_spec t t') as [<-|Hne].
    + rewrite IH. split; [|by intros [_ ?]].
      intros Hm. split; [by intros ? ? [= _ <-]|done].
    + split; [done|]. intros [Hv _]. destruct Hne. symmetry. by apply (Hv i).
Qed.

Lemma FakeRootModule_None_Ok mods :
  FakeRootModule None mods = Ok tt ↔
  ∀ k1 i1 t1 k2 i2 t2,
    (k1, PyModule i1 t1) ∈ mods → (k2, PyModule i2 t2) ∈ mods → t1 = t2.
Proof.
  induction mods as [|[k v] mods IH]; simpl.
  - split; [|done]. by intros _ ? ? ? ? ? ? ?%elem_of_nil.
  - destruct v as [| |i t| |].
    1,2,4,5: rewrite IH; split;
      [ intros Hm k1 i1 t1 k2 i2 t2 [?|?]%elem_of_cons [?|?]%elem_of_cons;
          try done; eauto
      | intros Hm k1 i1 t1 k2 i2 t2 ? ?;
          apply (Hm k1 i1 t1 k2 i2 t2); by right ].
    rewrite FakeRootModule_Some_Ok. split.
    + intros Hm k1 i1 t1 k2 i2 t2 [[= -> <- <-]|H1]%elem_of_cons
        [[= -> <- <-]|H2]%elem_of_cons; try done.
      * symmetry. eauto.
      * eauto.
      * rewrite (Hm _ _ _ H1). symmetry. eauto.
    + intros Hm k' i' t' Hin. apply (Hm k' i' t' k i t); [by right|by left].
Qed.

(** X10: the root module of the compiled graph is built exactly when the
    registered modules agree on their [training] flag; otherwise its
    constructor fails an assertion, and with it the RETURN_VALUE that was
    about to translate a traceable tensor. *)
Theorem fake_root_module_one_training_mode `{Collaborators} inst s p g rest :
  (FakeRootModule None (nn_modules s) = Ok tt ↔
   ∀ k1 i1 t1 k2 i2 t2,
     (k1, PyModule i1 t1) ∈ nn_modules s →
     (k2, PyModule i2 t2) ∈ nn_modules s → t1 = t2) ∧
  (stack s = TensorVariable p YES g :: rest →
   FakeRootModule None (nn_modules s) ≠ Ok tt →
   RETURN_VALUE inst s = Raise AssertionError).
Proof.
  split; [apply FakeRootModule_None_Ok|].
  intros Hst Hno. rewrite (RETURN_VALUE_pop inst s _ rest Hst).
  destruct (FakeRootModule_cases None (nn_modules s)) as [|Hr]; [done|].
  unfold get_state, create_node, bind, gets, modify, ret, lift.
  cbn [is_VariableTracker vt_state nn_modules set_guards set_graph set_stack].
  by rewrite Hr.
Qed.

Lemma fake_root_module_one_training_mode_witness :
  @RETURN_VALUE sample_collaborators (op0 "RETURN_VALUE") mixed_modes_state =
    Raise AssertionError.
Proof.
  apply (proj2 (@fake_root_module_one_training_mode sample_collaborators
                  (op0 "RETURN_VALUE") mixed_modes_state 0 ∅ []));
    [reflexivity | discriminate].
Defined.

(** ** Paths into the module registry *)

Lemma append_cons c s t : String c s +:+ t = String c (s +:+ t).
Proof. reflexivity. Qed.

Lemma append_empty_l s : "" +:+ s = s.
Proof. reflexivity. Qed.

Lemma append_empty_r s : s +:+ "" = s.
Proof. induction s as [|a s IH]; [done|]. by rewrite append_cons, IH. Qed.

Lemma append_char_assoc cur a s : (cur +:+ String a "") +:+ s = cur +:+ String a s.
Proof.
  induction cur as [|c cur IH]; [done|]. by rewrite !append_cons, IH.
Qed.

Lemma split_dot_aux_no_dot cur s :
  no_dot s = true → split_dot_aux cur s = [cur +:+ s].
Proof.
  unfold no_dot. revert cur. induction s as [|a s IH]; intros cur; simpl.
  - by rewrite append_empty_r.
  - intros [Ha Hs]%andb_prop. destruct (Ascii.eqb a _); [done|].
    by rewrite IH, append_char_assoc.
Qed.






(** ** Registry keys *)

Lemma pretty_N_go_lacks c x s :
  (∀ d, pretty_N_char d ≠ c) → lacks c s = true → lacks c (pretty_N_go x s) = true.
Proof.
  intros Hc. revert s. induction (N.lt_wf_0 x) as [x _ IH]; intros s Hs.
  destruct (decide (0 < x)%N) as [Hx|Hx].
  - rewrite pretty_N_go_step by done.
    apply IH; [apply N.div_lt; lia|]. simpl. rewrite Hs.
    destruct (Ascii.eqb_spec (pretty_N_char (x `mod` 10)) c) as [Heq|]; [|done].
    by destruct (Hc _ Heq).
  - assert (x = 0%N) as -> by lia. by rewrite pretty_N_go_0.
Qed.

Lemma pretty_nat_lacks c (n : nat) :
  (∀ d, pretty_N_char d ≠ c) → lacks c (pretty n) = true.
Proof.
  intros Hc. unfold pretty, pretty_nat, pretty, pretty_N.
  case_decide; [|by apply pretty_N_go_lacks].
  change (lacks c (String (pretty_N_char 0) "") = true). cbn [lacks].
  destruct (Ascii.eqb_spec (pretty_N_char 0) c) as [Heq|]; [|done].
  by destruct (Hc 0%N).
Qed.

Lemma pretty_nat_no_dot (n : nat) : no_dot (pretty n) = true.
Proof.
  apply pretty_nat_lacks. intros d. unfold pretty_N_char.
  by repeat case_match.
Qed.

Lemma lacks_app c a b : lacks c (a +:+ b) = lacks c a && lacks c b.
Proof.
  induction a as [|x a IH]; [done|].
  rewrite append_cons. simpl. rewrite IH. by destruct (negb _).
Qed.

Lemma lacks_sep c a b : lacks c (a +:+ String c b) = false.
Proof.
  rewrite lacks_app. simpl. rewrite Ascii.eqb_refl. simpl.
  apply andb_false_r.
Qed.

Lemma append_sep_inj c a b x y :
  lacks c x = true → lacks c y = true →
  a +:+ String c x = b +:+ String c y → a = b ∧ x = y.
Proof.
  intros Hx Hy. revert b. induction a as [|e a IH]; intros [|d b].
  - rewrite !append_empty_l. by intros [= ->].
  - rewrite append_empty_l, append_cons. intros [= <- ->].
    by rewrite lacks_sep in Hx.
  - rewrite append_empty_l, append_cons. intros [= -> <-].
    by rewrite lacks_sep in Hy.
  - rewrite !append_cons. intros [= -> Heq]. by destruct (IH _ Heq) as [-> ->].
Qed.

Lemma registry_key_inj a b (n m : nat) :
  a +:+ "_" +:+ pretty n = b +:+ "_" +:+ pretty m → a = b ∧ n = m.
Proof.
  intros Heq.
  assert (∀ d, pretty_N_char d ≠ Ascii.ascii_of_nat 95) as Hc.
  { intros d. unfold pretty_N_char. by repeat case_match. }
  change (a +:+ String (Ascii.ascii_of_nat 95) (pretty n) =
          b +:+ String (Ascii.ascii_of_nat 95) (pretty m)) in Heq.
  apply append_sep_inj in Heq as [-> Hp]; [|by apply pretty_nat_lacks..].
  split; [done|]. by apply (inj pretty).
Qed.

Lemma registry_key_no_dot name (n : nat) :
  no_dot name = true → no_dot (name +:+ "_" +:+ pretty n) = true.
Proof.
  intros Hn. unfold no_dot in *. rewrite lacks_app, Hn.
  change ("_" +:+ pretty n) with (String (Ascii.ascii_of_nat 95) (pretty n)).
  simpl.
  apply pretty_nat_no_dot.
Qed.

Lemma dict_get_set_string_same {V} k (v : V) d :
  dict_get String.eqb k (dict_set String.eqb k v d) = Some v.
Proof.
  induction d as [|[k' v'] d IH]; simpl.
  - by rewrite String.eqb_refl.
  - destruct (String.eqb k' k) eqn:Hk; simpl; by rewrite Hk.
Qed.

Lemma dict_get_set_string_other {V} k q (v : V) d :
  k ≠ q →
  dict_get String.eqb q (dict_set String.eqb k v d) = dict_get String.eqb q d.
Proof.
  intros Hne. induction d as [|[k' v'] d IH]; simpl.
  - by apply String.eqb_neq in Hne as ->.
  - destruct (String.eqb_spec k' k) as [->|Hk]; simpl.
    + by apply String.eqb_neq in Hne as ->.
    + by rewrite IH.
Qed.

Lemma get_submodule_key `{Collaborators} key s :
  no_dot key = true → key ≠ "" →
  get_submodule key s =
    match dict_get String.eqb key (nn_modules s) with
    | Some obj => Ok (obj, s)
    | None => Raise KeyError
    end.
Proof.
  intros Hk Hne. unfold get_submodule, split_dot.
  rewrite (split_dot_aux_no_dot "" key Hk), append_empty_l.
  apply String.eqb_neq in Hne as ->.
  unfold assert, bind, ret, gets, or_raise, raise. simpl.
  by destruct (dict_get _ _ _).
Qed.

(** ** Wrapping the locals *)

Section wrapping.
Context `{Collaborators}.

Lemma wrap_local_unwrappable name value s :
  wrappable value = false →
  wrap_local name value s =
    Raise (NotImplementedError ("wrap_local: " +:+ type_name value)).
Proof. by destruct value as [[]| | | |]. Qed.

Lemma wrap_local_wrappable name value s :
  wrappable value = true → ∃ v s', wrap_local name value s = Ok (v, s').
Proof.
  destruct value as [[]| | | |]; try done; intros _; simpl;
    unfold bind, modify, create_graph_input, next_cnt, bind, modify, gets, ret;
    eauto.
Qed.

Lemma wrap_local_effect name value s v s' :
  wrap_local name value s = Ok (v, s') →
  wrappable value = true ∧ wraps_as name value v ∧ cnt s ≤ cnt s' ∧
  match value with
  | PyModule _ _ =>
      v = NNModuleVariable (name +:+ "_" +:+ pretty (cnt s)) YES
            {[ mkGuard name LOCAL VALUE_MATCH ]} ∧
      cnt s' = S (cnt s) ∧
      nn_modules s' =
        dict_set String.eqb (name +:+ "_" +:+ pretty (cnt s)) value (nn_modules s)
  | _ => nn_modules s' = nn_modules s
  end.
Proof.
  destruct value as [c| | | |]; simpl.
  - destruct c; try discriminate; intros Hw; inv_M; done.
  - intros Hw. inv_M.
    match goal with Hc : create_graph_input _ _ = Ok _ |- _ =>
      apply create_graph_input_Ok in Hc as (pre & post & _ & -> & _) end.
    simpl. repeat split; eauto.
  - unfold next_cnt. intros Hw. inv_M. simpl. repeat split; eauto.
  - discriminate.
  - discriminate.
Qed.

Lemma wrap_locals_result f_locals names acc s :
  match wrap_locals f_locals names acc s with
  | Ok _ => ∀ k v, k ∈ names → f_locals !! k = Some v → wrappable v = true
  | Raise e =>
      ∃ k v, k ∈ names ∧ f_locals !! k = Some v ∧ wrappable v = false ∧
             e = NotImplementedError ("wrap_local: " +:+ type_name v)
  end.
Proof.
  revert acc s. induction names as [|k names IH]; intros acc s; simpl.
  - unfold ret. by intros ? ? ?%elem_of_nil.
  - destruct (f_locals !! k) as [value|] eqn:Hk.
    + destruct (wrappable value) eqn:Hw.
      * destruct (wrap_local_wrappable k value s Hw) as (v & s1 & Hv).
        rewrite (bind_eq _ _ _ _ _ Hv).
        specialize (IH (dict_set py_eqb (CStr k) v acc) s1).
        destruct (wrap_locals _ _ _ _) as [?|e].
        -- intros k' v' [->|?]%elem_of_cons ?; [congruence|eauto].
        -- destruct IH as (k' & v' & ? & ?). exists k', v'.
           split; [by right|done].
      * unfold bind. rewrite wrap_local_unwrappable by done.
        exists k, value. split; [by left|done].
    + specialize (IH acc s). destruct (wrap_locals _ _ _ _) as [?|e].
      * intros k' v' [->|?]%elem_of_cons ?; [congruence|eauto].
      * destruct IH as (k' & v' & ? & ?). exists k', v'.
        split; [by right|done].
Qed.

Lemma wrap_locals_domain f_locals names acc s locals s' k :
  wrap_locals f_locals names acc s = Ok (locals, s') → str_keys acc →
  (∀ v, dict_get py_eqb (CStr k) locals = Some v →
        dict_get py_eqb (CStr k) acc = Some v ∨
        (k ∈ names ∧ ∃ value, f_locals !! k = Some value ∧ wraps_as k value v)) ∧
  (k ∈ names ∧ is_Some (f_locals !! k) ∨ is_Some (dict_get py_eqb (CStr k) acc) →
   is_Some (dict_get py_eqb (CStr k) locals)).
Proof.
  revert acc s. induction names as [|k0 names IH]; simpl; intros acc s Hw Hacc.
  - inv_M. split; [by left|]. by intros [[?%elem_of_nil _]|?].
  - destruct (f_locals !! k0) as [value|] eqn:Hk0.
    + inv_M.
      match goal with Hl : wrap_local _ _ _ = Ok _ |- _ =>
        apply wrap_local_effect in Hl as (_ & Hv & _) end.
      match goal with Hl : wrap_locals _ _ _ _ = Ok _ |- _ =>
        eapply IH in Hl as [IH1 IH2]; [|by apply dict_set_str_keys] end.
      rewrite dict_get_set_str in IH1, IH2 by done.
      destruct (String.eqb_spec k0 k) as [->|Hne].
      * split.
        -- intros v [[= <-]|(? & ?)]%IH1; right.
           ++ split; [by left|by eauto].
           ++ split; [by right|done].
        -- intros _. apply IH2. by right.
      * split.
        -- intros v [?|(? & ?)]%IH1; [by left|right]. split; [by right|done].
        -- intros [[[?|?]%elem_of_cons ?]|?]; [congruence|apply IH2..]; auto.
    + eapply IH in Hw as [IH1 IH2]; [|done]. split.
      * intros v [?|(? & ?)]%IH1; [by left|right]. split; [by right|done].
      * intros [[[->|?]%elem_of_cons Hs]|?]; [|apply IH2..]; auto.
        rewrite Hk0 in Hs. by destruct Hs.
Qed.

Lemma wrap_locals_registered f_locals names acc s locals s' :
  wrap_locals f_locals names acc s = Ok (locals, s') → str_keys acc →
  (∀ k i t v,
     f_locals !! k = Some (PyModule i t) →
     dict_get py_eqb (CStr k) acc = Some v →
     ∃ n, n < cnt s ∧
          v = NNModuleVariable (k +:+ "_" +:+ pretty n) YES
                {[ mkGuard k LOCAL VALUE_MATCH ]} ∧
          dict_get String.eqb (k +:+ "_" +:+ pretty n) (nn_modules s) =
            Some (PyModule i t)) →
  ∀ k i t v,
    f_locals !! k = Some (PyModule i t) →
    dict_get py_eqb (CStr k) locals = Some v →
    ∃ n, n < cnt s' ∧
         v = NNModuleVariable (k +:+ "_" +:+ pretty n) YES
               {[ mkGuard k LOCAL VALUE_MATCH ]} ∧
         dict_get String.eqb (k +:+ "_" +:+ pretty n) (nn_modules s') =
           Some (PyModule i t).
Proof.
  revert acc s. induction names as [|k0 names IH]; simpl; intros acc s Hw Hacc Hreg.
  - by inv_M.
  - destruct (f_locals !! k0) as [value|] eqn:Hk0; [|by eapply IH].
    inv_M.
    match goal with Hl : wrap_local _ _ _ = Ok _ |- _ =>
      apply wrap_local_effect in Hl as (_ & _ & Hcnt & Hv) end.
    match goal with Hl : wrap_locals _ _ _ _ = Ok _ |- _ =>
      apply (IH _ _ Hl); [by apply dict_set_str_keys|]; clear Hl end.
    intros k i t v Hk. rewrite dict_get_set_str by done.
    destruct (String.eqb_spec k0 k) as [->|Hne].
    + intros [= <-]. rewrite Hk in Hk0. injection Hk0 as <-.
      destruct Hv as (-> & Hc & Hmods). exists (cnt s).
      split; [lia|]. split; [done|].
      rewrite Hmods. apply dict_get_set_string_same.
    + intros Hget. destruct (Hreg k i t v Hk Hget) as (n & Hn & -> & Hm).
      exists n. split; [lia|]. split; [done|].
      destruct value; try (by rewrite Hv).
      destruct Hv as (_ & _ & ->). rewrite dict_get_set_string_other; [done|].
      by intros [? _]%registry_key_inj.
Qed.

End wrapping.

(** X12: a module bound to a local is registered under a key of its own,
    made of the name of the local and the counter: after the tracer is
    built, the local stands for that key and the key resolves to the
    module, whatever was wrapped after it. *)
Theorem module_locals_resolve `{Collaborators}
    instrs f_locals globals builtins co s0 k i t :
  InstructionTracer_init instrs f_locals globals builtins co = Ok s0 →
  k ∈ co_varnames co →
  f_locals !! k = Some (PyModule i t) →
  no_dot k = true →
  ∃ n : nat,
    dict_get py_eqb (CStr k) (symbolic_locals s0) =
      Some (NNModuleVariable (k +:+ "_" +:+ pretty n) YES
              {[ mkGuard k LOCAL VALUE_MATCH ]}) ∧
    get_submodule (k +:+ "_" +:+ pretty n) s0 = Ok (PyModule i t, s0).
Proof.
  unfold InstructionTracer_init.
  destruct (wrap_locals _ _ _ _) as [[locals s]|] eqn:Hw; [|done].
  intros [= <-] Hin Hk Hdot.
  assert (str_keys ([] : list (PyConst * VariableTracker))) as Hnil by constructor.
  destruct (wrap_locals_domain _ _ _ _ _ _ k Hw Hnil) as [_ Hdom].
  destruct Hdom as [v Hv]; [left; by rewrite Hk|].
  destruct (wrap_locals_registered _ _ _ _ _ _ Hw Hnil) with (k := k) (i := i)
    (t := t) (v := v) as (n & _ & -> & Hreg); [done|done|done|].
  exists n. split; [done|].
  rewrite get_submodule_key.
  - cbn [nn_modules set_symbolic_locals]. by rewrite Hreg.
  - by apply registry_key_no_dot.
  - by destruct k.
Qed.

Lemma module_locals_resolve_witness :
  ∃ n : nat,
    dict_get py_eqb (CStr "net") (symbolic_locals init_module) =
      Some (NNModuleVariable ("net" +:+ "_" +:+ pretty n) YES
              {[ mkGuard "net" LOCAL VALUE_MATCH ]}) ∧
    @get_submodule sample_collaborators ("net" +:+ "_" +:+ pretty n) init_module =
      Ok (PyModule 4 true, init_module).
Proof.
  apply (@module_locals_resolve sample_collaborators
           (co_instructions (frame_code frame_module))
           (frame_locals frame_module) (frame_globals frame_module)
           (frame_builtins frame_module) (co_options (frame_code frame_module))
           init_module "net" 4 true).
  - vm_compute; reflexivity.
  - simpl. by left.
  - vm_compute; reflexivity.
  - reflexivity.
Defined.

(** X13: the tracer is built exactly when every local that the code names
    holds a tensor, a module, a boolean or None. Otherwise building it
    aborts with the signal that names the type of such a local, and the
    frame keeps its own code, without guards. *)
Theorem unsupported_local_aborts `{Collaborators} frame :
  let co := co_options (frame_code frame) in
  ((∃ s0, init_of frame = Ok s0) ↔
   ∀ k v, k ∈ co_varnames co → frame_locals frame !! k = Some v →
          wrappable v = true) ∧
  (∀ e, init_of frame = Raise e →
     (∃ k v, k ∈ co_varnames co ∧ frame_locals frame !! k = Some v ∧
             wrappable v = false ∧
             e = NotImplementedError ("wrap_local: " +:+ type_name v)) ∧
     ∀ fuel, convert_frame fuel frame =
               Some (Ok (GuardedCode_unguarded (frame_code frame)))).
Proof.
  intros co. unfold init_of, InstructionTracer_init. fold co.
  match goal with |- context [wrap_locals ?f ?n ?a ?s] =>
    pose proof (wrap_locals_result f n a s) as Hres;
    destruct (wrap_locals f n a s) as [[locals s1]|e0] eqn:Hw end.
  - split; [split; [done|by eauto]|done].
  - destruct Hres as (k & v & Hin & Hk & Hwr & ->). split.
    + split; [by intros [? ?]|]. intros Hall.
      rewrite (Hall k v Hin Hk) in Hwr. done.
    + intros e [= <-]. split; [by exists k, v|].
      intros fuel. unfold convert_frame, convert_frame_assert.
      destruct (String.prefix _ _); [done|].
      destruct (debug_checks _) as [[]|[]]; try done.
      unfold transform_code_object, transform, InstructionTracer_init.
      fold co. by rewrite Hw.
Qed.

Lemma unsupported_local_aborts_witness :
  (∃ k v, k ∈ co_varnames (co_options (frame_code frame_int_local)) ∧
          frame_locals frame_int_local !! k = Some v ∧
          wrappable v = false ∧
          NotImplementedError "wrap_local: int" =
            NotImplementedError
              ("wrap_local: " +:+ @type_name sample_collaborators v)) ∧
  ∀ fuel, @convert_frame sample_collaborators fuel frame_int_local =
            Some (Ok (GuardedCode_unguarded (frame_code frame_int_local))).
Proof.
  apply (proj2 (@unsupported_local_aborts sample_collaborators frame_int_local)
           (NotImplementedError "wrap_local: int")).
  vm_compute; reflexivity.
Defined.

(** X14: the locals of a tracer that was built are the names of the code
    that the frame binds, and nothing else; each stands for the wrapped
    value, which carries exactly one guard, on its own name: a type match
    for a tensor and a value match for a module or a constant. *)
Theorem symbolic_locals_of_init `{Collaborators}
    instrs f_locals globals builtins co s0 :
  InstructionTracer_init instrs f_locals globals builtins co = Ok s0 →
  ∀ k,
    match dict_get py_eqb (CStr k) (symbolic_locals s0) with
    | Some v =>
        k ∈ co_varnames co ∧
        ∃ value, f_locals !! k = Some value ∧ wrappable value = true ∧
                 wraps_as k value v ∧
                 vt_guards v = {[ mkGuard k LOCAL (local_requirement value) ]}
    | None => k ∉ co_varnames co ∨ f_locals !! k = None
    end.
Proof.
  unfold InstructionTracer_init.
  pose proof (wrap_locals_result f_locals (co_varnames co) []
    (mkTracer [] instrs [] globals builtins 0 0 [] co [] ∅ [])) as Hres.
  destruct (wrap_locals _ _ _ _) as [[locals s]|] eqn:Hw; [|done].
  intros [= <-] k. cbn [symbolic_locals set_symbolic_locals].
  assert (str_keys ([] : list (PyConst * VariableTracker))) as Hnil by constructor.
  destruct (wrap_locals_domain _ _ _ _ _ _ k Hw Hnil) as [Hsome Hdom].
  destruct (dict_get py_eqb (CStr k) locals) as [v|] eqn:Hget.
  - destruct (Hsome v eq_refl) as [?|(Hin & value & Hk & Hwraps)]; [done|].
    split; [done|]. exists value. split; [done|]. split; [by eauto|].
    split; [done|].
    destruct value as [c| | | |]; simpl in *.
    + by rewrite Hwraps.
    + by destruct Hwraps as [p ->].
    + by destruct Hwraps as [n ->].
    + done.
    + done.
  - destruct (decide (k ∈ co_varnames co)) as [Hin|]; [|by left].
    right. destruct (f_locals !! k) eqn:Hk; [|done].
    destruct Hdom as [? Hx]; [left; split; [done|by eexists]|done].
Qed.

Lemma symbolic_locals_of_init_witness :
  match dict_get py_eqb (CStr "x") (symbolic_locals init_module) with
  | Some v =>
      "x" ∈ co_varnames (co_options (frame_code frame_module)) ∧
      ∃ value, frame_locals frame_module !! "x" = Some value ∧
               wrappable value = true ∧
               @wraps_as sample_collaborators "x" value v ∧
               vt_guards v = {[ mkGuard "x" LOCAL (local_requirement value) ]}
  | None => "x" ∉ co_varnames (co_options (frame_code frame_module)) ∨
            frame_locals frame_module !! "x" = None
  end.
Proof.
  apply (@symbolic_locals_of_init sample_collaborators
           (co_instructions (frame_code frame_module))
           (frame_locals frame_module) (frame_globals frame_module)
           (frame_builtins frame_module) (co_options (frame_code frame_module))
           init_module).
  vm_compute; reflexivity.
Defined.

(** ** Starred calls and dictionaries *)

Lemma build_seq_Ok `{Collaborators} kind inst s n items rest options :
  as_int (argval inst) = Some (Z.of_nat n) →
  length items = n →
  stack s = rev items ++ rest →
  propagate items = Ok options →
  build_seq kind inst s =
    Ok (tt, set_stack (ListVariable kind items (opt_state options)
                         (opt_guards options) :: rest) s).
Proof.
  intros Hn Hlen Hst Hprop. unfold build_seq, int_operand. rewrite Hn.
  erewrite (bind_eq (or_raise _ _)); [|reflexivity].
  rewrite <- Hlen.
  erewrite (bind_eq (popn _)); [|by apply (popn_app items rest)].
  rewrite Hprop. erewrite (bind_eq (lift _)); [|reflexivity].
  unfold push, modify. simpl. by rewrite set_stack_set_stack.
Qed.

(** X15: a call with starred arguments only, [f( *args)], on a sequence that
    was just built from the [n] topmost values is the plain call with [n]
    arguments: both dispatch the callable below them on the same arguments,
    without keywords. *)
Theorem starred_call_is_plain_call `{Collaborators}
    kind build ex call s n args fn rest options :
  as_int (argval build) = Some (Z.of_nat n) →
  as_int (argval call) = Some (Z.of_nat n) →
  py_eqb (argval ex) (CInt 0) = true →
  length args = n →
  stack s = rev args ++ fn :: rest →
  propagate args = Ok options →
  (build_seq kind build;;; CALL_FUNCTION_EX ex) s = CALL_FUNCTION call s.
Proof.
  intros Hb Hc Hex Hlen Hst Hprop.
  rewrite (call_function_stack_only call s n args fn rest Hc Hlen Hst).
  rewrite (bind_eq _ _ _ _ _
             (build_seq_Ok kind build s n args (fn :: rest) options
                Hb Hlen Hst Hprop)).
  unfold CALL_FUNCTION_EX. rewrite Hex.
  erewrite (bind_eq (bind pop _)).
  2: { erewrite (bind_eq pop); [|apply pop_Ok; reflexivity]. reflexivity. }
  cbn beta iota.
  erewrite (bind_eq pop); [|apply pop_Ok; reflexivity].
  by rewrite !set_stack_set_stack.
Qed.

Lemma starred_call_is_plain_call_witness :
  (@build_seq sample_collaborators KTuple (op_int "BUILD_TUPLE" 2);;;
   @CALL_FUNCTION_EX sample_collaborators (op_int "CALL_FUNCTION_EX" 0))
    call_args_state =
    @CALL_FUNCTION sample_collaborators (op_int "CALL_FUNCTION" 2) call_args_state.
Proof.
  apply (@starred_call_is_plain_call sample_collaborators KTuple
           (op_int "BUILD_TUPLE" 2) (op_int "CALL_FUNCTION_EX" 0)
           (op_int "CALL_FUNCTION" 2) call_args_state 2 [one_const; two_const]
           sample_callable [] (mkOptions UNKNOWN ∅)).
  - reflexivity.
  - reflexivity.
  - reflexivity.
  - reflexivity.
  - reflexivity.
  - vm_compute; reflexivity.
Defined.

Lemma alternate_length {A} (ks vs : list A) :
  length ks = length vs → length (alternate ks vs) = 2 * length ks.
Proof.
  revert vs. induction ks as [|k ks IH]; intros [|v vs]; simpl; try done.
  intros [= Hlen]. rewrite IH by done. lia.
Qed.

Lemma every_other_alternate {A} (ks vs : list A) :
  length ks = length vs → every_other (alternate ks vs) = ks.
Proof.
  revert vs. induction ks as [|k ks IH]; intros [|v vs]; simpl; try done.
  intros [= Hlen]. by rewrite IH.
Qed.

Lemma every_other_drop_alternate {A} (ks vs : list A) :
  length ks = length vs → every_other (drop 1 (alternate ks vs)) = vs.
Proof.
  revert vs. induction ks as [|k ks IH]; intros [|v vs]; simpl; try done.
  intros [= Hlen]. specialize (IH vs Hlen).
  destruct (alternate ks vs); simpl in *; rewrite ?drop_0 in IH; congruence.
Qed.

Lemma build_map_constants cs vs acc s :
  build_map (zip ((λ c, ConstantVariable c UNKNOWN ∅) <$> cs) vs) acc s =
    Ok (fold_left (λ d kv, dict_set py_eqb kv.1 kv.2 d) (zip cs vs) acc, s).
Proof.
  revert vs acc. induction cs as [|c cs IH]; intros [|v vs] acc; simpl; try done.
Qed.

(** X16: the two ways to build a dictionary from constant keys agree on
    what they build, the pairs in the order of the first occurrence of each
    key and with its last value, but only BUILD_MAP rejects a repeated key:
    its assertion on the number of entries fails, where BUILD_CONST_KEY_MAP
    compares the keys with the values and builds the shorter dictionary. *)
Theorem build_map_rejects_repeated_keys `{Collaborators}
    inst s1 s2 n cs vs rest st g options1 options2 :
  let keys := (λ c, ConstantVariable c UNKNOWN ∅) <$> cs in
  let result := dict_of_pairs py_eqb (zip cs vs) in
  as_int (argval inst) = Some (Z.of_nat n) →
  length cs = n → length vs = n →
  (stack s1 = rev (alternate keys vs) ++ rest →
   propagate (alternate keys vs) = Ok options1 →
   BUILD_MAP inst s1 =
     if Nat.eqb (length result) n
     then Ok (tt, set_stack (ConstDictVariable result (opt_state options1)
                               (opt_guards options1) :: rest) s1)
     else Raise AssertionError) ∧
  (stack s2 = ConstantVariable (CTuple cs) st g :: rev vs ++ rest →
   propagate (ConstantVariable (CTuple cs) st g :: vs) = Ok options2 →
   BUILD_CONST_KEY_MAP inst s2 =
     Ok (tt, set_stack (ConstDictVariable result (opt_state options2)
                          (opt_guards options2) :: rest) s2)).
Proof.
  intros keys result Hn Hcs Hvs.
  assert (length keys = length vs) as Hkv.
  { unfold keys. rewrite length_fmap. congruence. }
  split.
  - intros Hst Hprop. unfold BUILD_MAP, int_operand. rewrite Hn.
    erewrite (bind_eq (or_raise _ _)); [|reflexivity].
    replace (Z.of_nat n * 2)%Z with (Z.of_nat (length (alternate keys vs))).
    2: { rewrite alternate_length, Hkv by done. lia. }
    erewrite (bind_eq (popn _)); [|by apply (popn_app _ rest)].
    rewrite Hprop. erewrite (bind_eq (lift _)); [|reflexivity].
    rewrite every_other_alternate, every_other_drop_alternate by done.
    unfold keys. erewrite (bind_eq (build_map _ _)); [|apply build_map_constants].
    fold (dict_of_pairs py_eqb (zip cs vs)). fold result.
    rewrite alternate_length by done. fold keys. rewrite Hkv, Hvs.
    replace (Nat.eqb (2 * length result) (2 * n)) with (Nat.eqb (length result) n).
    2: { destruct (Nat.eqb_spec (length result) n),
           (Nat.eqb_spec (2 * length result) (2 * n)); try done; lia. }
    destruct (Nat.eqb (length result) n); [|done].
    unfold assert. erewrite (bind_eq (ret _)); [|reflexivity].
    unfold push, modify. simpl. by rewrite set_stack_set_stack.
  - intros Hst Hprop. unfold BUILD_CONST_KEY_MAP.
    erewrite (bind_eq pop); [|by apply pop_Ok].
    unfold int_operand. rewrite Hn.
    erewrite (bind_eq (or_raise _ _)); [|reflexivity].
    rewrite <- Hvs.
    erewrite (bind_eq (popn _)); [|by apply (popn_app vs rest)].
    rewrite Hprop. erewrite (bind_eq (lift _)); [|reflexivity].
    cbn beta iota. rewrite Hcs, Hvs, Nat.eqb_refl.
    unfold assert. erewrite (bind_eq (ret _)); [|reflexivity].
    unfold push, modify. simpl. by rewrite !set_stack_set_stack.
Qed.

Lemma build_map_rejects_repeated_keys_witness :
  @BUILD_MAP sample_collaborators (op_int "BUILD_MAP" 2) repeated_key_state =
    Raise AssertionError ∧
  @BUILD_CONST_KEY_MAP sample_collaborators (op_int "BUILD_CONST_KEY_MAP" 2)
    const_key_state =
    Ok (tt, set_stack [ConstDictVariable [(CInt 1, three_const)] UNKNOWN ∅]
              const_key_state).
Proof.
  destruct (@build_map_rejects_repeated_keys sample_collaborators
              (op_int "BUILD_MAP" 2) repeated_key_state const_key_state 2
              [CInt 1; CInt 1] [two_const; three_const] [] UNKNOWN ∅
              (mkOptions UNKNOWN ∅) (mkOptions UNKNOWN ∅)
              eq_refl eq_refl eq_refl) as [Hmap Hconst].
  split.
  - apply Hmap; [reflexivity | vm_compute; reflexivity].
  - apply Hconst; [reflexivity | vm_compute; reflexivity].
Defined.

(** ** The shape of the traced graph *)






















Section tracer_builds.
Context `{Collaborators}.
















End tracer_builds.



(** ** A loop that the tracer does not leave *)

Section divergence.
Context `{Collaborators}.

Lemma advance_run_None k fuel s0 s :
  advance k s0 = Some s → fuel ≤ k → run fuel s0 = None.
Proof.
  revert fuel s0. induction k as [|k IH]; intros [|fuel] s0; simpl; try done.
  - lia.
  - destruct (step s0) as [[[] s1]|e]; try discriminate.
    intros Hadv Hle. eapply IH; [done|lia].
Qed.

Lemma advance_cycle k s :
  0 < k → advance k s = Some s → ∀ fuel, run fuel s = None.
Proof.
  intros Hk Hadv fuel. induction (lt_wf fuel) as [fuel _ IH].
  destruct (decide (fuel ≤ k)) as [Hle|Hgt].
  - by eapply advance_run_None.
  - replace fuel with (k + (fuel - k)) by lia.
    rewrite (run_advance _ _ _ _ Hadv). apply IH. lia.
Qed.

Lemma handler_of_LOAD_CONST : handler_of "LOAD_CONST" = Some LOAD_CONST.
Proof. reflexivity. Qed.

Lemma backward_jump_cycle s load jmp :
  instructions s !! instruction_pointer s = Some load →
  opname load = "LOAD_CONST" →
  truthy (argval load) = false →
  instructions s !! S (instruction_pointer s) = Some jmp →
  opname jmp = "POP_JUMP_IF_FALSE" →
  target jmp = Some (instruction_pointer s) →
  advance 2 s = Some s.
Proof.
  intros Hload Hlop Hfalse Hjmp Hjop Htgt.
  assert (instruction_pointer s < length (instructions s)) as Hlt.
  { by eapply lookup_lt_Some. }
  unfold advance.
  rewrite (step_at s load LOAD_CONST Hload)
    by (rewrite Hlop; apply handler_of_LOAD_CONST).
  unfold LOAD_CONST, push, modify. rewrite Hlop. cbn [negb String.eqb Ascii.eqb Bool.eqb].
  erewrite (step_at _ jmp POP_JUMP_IF_FALSE);
    [|exact Hjmp|rewrite Hjop; apply handler_of_POP_JUMP_IF_FALSE].
  rewrite Hjop.
  unfold POP_JUMP_IF_FALSE, bind, pop, get_guards, modify, ret, jump, gets.
  cbn [stack set_stack set_instruction_pointer is_VariableTracker vt_guards
       instructions set_guards instruction_pointer guards].
  rewrite Hfalse, Htgt. cbn [negb]. unfold bind.
  cbn [instructions set_guards set_stack set_instruction_pointer].
  rewrite bool_decide_eq_true_2 by done. unfold modify.
  cbn [negb String.eqb Ascii.eqb Bool.eqb].
  rewrite union_empty_r_L. by destruct s.
Qed.

End divergence.

(** X18: the tracer follows a conditional jump on a constant wherever it
    goes, and nothing stops it from going round: when a LOAD_CONST of a falsy
    constant is followed by a POP_JUMP_IF_FALSE back to it, two steps lead
    back to the same tracer, the loop of [run] is still running after any
    number of steps, and the conversion of such a frame does not return. *)
Theorem run_diverges_on_backward_jump `{Collaborators} s load jmp :
  instructions s !! instruction_pointer s = Some load →
  opname load = "LOAD_CONST" →
  truthy (argval load) = false →
  instructions s !! S (instruction_pointer s) = Some jmp →
  opname jmp = "POP_JUMP_IF_FALSE" →
  target jmp = Some (instruction_pointer s) →
  advance 2 s = Some s ∧
  (∀ fuel, run fuel s = None) ∧
  (∀ frame,
     init_of frame = Ok s →
     String.prefix "<eval_with_key>" (co_filename (frame_code frame)) = false →
     debug_checks (frame_code frame) = Ok tt →
     ∀ fuel, convert_frame fuel frame = None).
Proof.
  intros Hload Hlop Hfalse Hjmp Hjop Htgt.
  pose proof (backward_jump_cycle s load jmp Hload Hlop Hfalse Hjmp Hjop Htgt)
    as Hcycle.
  assert (∀ fuel, run fuel s = None) as Hrun.
  { apply (advance_cycle 2); [lia|done]. }
  split; [done|]. split; [done|].
  intros frame Hinit Hskip Hdebug fuel.
  unfold convert_frame, convert_frame_assert. rewrite Hskip, Hdebug.
  unfold transform_code_object, transform.
  unfold init_of in Hinit. by rewrite Hinit, Hrun.
Qed.

Lemma run_diverges_on_backward_jump_witness :
  @advance sample_collaborators 2 init_loop = Some init_loop ∧
  (∀ fuel, @run sample_collaborators fuel init_loop = None) ∧
  (∀ frame,
     @init_of sample_collaborators frame = Ok init_loop →
     String.prefix "<eval_with_key>" (co_filename (frame_code frame)) = false →
     @debug_checks sample_collaborators (frame_code frame) = Ok tt →
     ∀ fuel, @convert_frame sample_collaborators fuel frame = None).
Proof.
  apply (@run_diverges_on_backward_jump sample_collaborators init_loop
           (mkInstruction "LOAD_CONST" (Some 1) (CInt 0) None)
           (op_jump "POP_JUMP_IF_FALSE" 0)).
  - reflexivity.
  - reflexivity.
  - reflexivity.
  - reflexivity.
  - reflexivity.
  - reflexivity.
Defined.

(** ** The rewriting at the end of a trace *)


Section rewriting.
Context `{Collaborators}.







End rewriting.



(** ** Method calls on tensors *)

Lemma CALL_METHOD_stack `{Collaborators} inst s n args fn rest :
  as_int (argval inst) = Some (Z.of_nat n) →
  length args = n →
  stack s = rev args ++ RawNone :: fn :: rest →
  CALL_METHOD inst s = call_function fn args [] (set_stack rest s).
Proof.
  intros Hn Hlen Hst. unfold CALL_METHOD, int_operand. rewrite Hn.
  erewrite (bind_eq (or_raise _ _)); [|reflexivity].
  rewrite <- Hlen.
  erewrite (bind_eq (popn _)); [|by apply (popn_app args (RawNone :: fn :: rest))].
  erewrite (bind_eq pop); [|apply pop_Ok; reflexivity].
  cbn [is_VariableTracker negb]. unfold assert.
  erewrite (bind_eq (ret _)); [|reflexivity].
  erewrite (bind_eq pop); [|apply pop_Ok; reflexivity].
  by rewrite !set_stack_set_stack.
Qed.

(** X20: a method call on a tensor, [x.m(args)], is traced in two halves.
    LOAD_METHOD replaces the tensor by the attribute access on it and pushes
    the bare None above; CALL_METHOD then records one call_method node, at
    the end of the graph, whose target is the method name and whose first
    argument is the tensor itself, followed by the arguments in the order
    they were pushed, and leaves the tensor of that node on the stack. *)
Theorem tensor_method_call `{Collaborators}
    load call s1 s2 p st g name st' g' n args rest opts1 opts2 pargs :
  let obj := TensorVariable p st g in
  let fn := GetAttrVariable obj name st' g' in
  (stack s1 = obj :: rest →
   propagate [obj] = Ok opts1 →
   LOAD_METHOD load s1 =
     Ok (tt, set_stack
               (RawNone :: GetAttrVariable obj (argval load) (opt_state opts1)
                             (opt_guards opts1) :: rest) s1)) ∧
  (as_int (argval call) = Some (Z.of_nat n) →
   length args = n →
   stack s2 = rev args ++ RawNone :: fn :: rest →
   propagate (fn :: obj :: args) = Ok opts2 →
   mapM_result as_proxy (obj :: args) = Ok pargs →
   ∃ s', CALL_METHOD call s2 = Ok (tt, s') ∧
         graph s' =
           graph s2 ++
           [mkNode (length (graph s2)) "call_method" (TName (py_str name))
              pargs []] ∧
         stack s' =
           TensorVariable (length (graph s2)) (opt_state opts2)
             (opt_guards opts2) :: rest).
Proof.
  intros obj fn. subst obj fn. split.
  - intros Hst Hprop. unfold LOAD_METHOD, LOAD_ATTR.
    erewrite (bind_eq (bind pop _)).
    2: { erewrite (bind_eq pop); [|by apply pop_Ok].
         rewrite Hprop. erewrite (bind_eq (lift _)); [|reflexivity].
         reflexivity. }
    unfold push, modify. simpl. by rewrite !set_stack_set_stack.
  - intros Hn Hlen Hst Hprop Hargs.
    rewrite (CALL_METHOD_stack call s2 n args _ rest Hn Hlen Hst).
    unfold call_function. cbn [fmap list_fmap]. rewrite app_nil_r, Hprop.
    erewrite (bind_eq (lift _)); [|reflexivity].
    rewrite Hargs. erewrite (bind_eq (lift _)); [|reflexivity].
    unfold as_proxy_kwargs. cbn [mapM_result].
    erewrite (bind_eq (lift _)); [|reflexivity].
    erewrite (bind_eq (create_proxy _ _ _ _)); [|reflexivity].
    eexists. split; [reflexivity|]. done.
Qed.

Lemma tensor_method_call_witness :
  ∃ s', @CALL_METHOD sample_collaborators (op_int "CALL_METHOD" 1)
          method_on_tensor_state = Ok (tt, s') ∧
        graph s' =
          graph method_on_tensor_state ++
          [mkNode (length (graph method_on_tensor_state)) "call_method"
             (TName (py_str (CStr "add"))) [ArgNode 0; ArgConst (CInt 1)] []] ∧
        stack s' =
          TensorVariable (length (graph method_on_tensor_state))
            (opt_state (mkOptions UNKNOWN {[ mkGuard "x" LOCAL TYPE_MATCH ]}))
            (opt_guards (mkOptions UNKNOWN {[ mkGuard "x" LOCAL TYPE_MATCH ]})) :: [].
Proof.
  apply (proj2 (@tensor_method_call sample_collaborators
                  (op_name "LOAD_METHOD" "add") (op_int "CALL_METHOD" 1)
                  method_on_tensor_state method_on_tensor_state
                  0 YES {[ mkGuard "x" LOCAL TYPE_MATCH ]} (CStr "add") YES
                  {[ mkGuard "x" LOCAL TYPE_MATCH ]} 1 [one_const] []
                  (mkOptions YES ∅)
                  (mkOptions UNKNOWN {[ mkGuard "x" LOCAL TYPE_MATCH ]})
                  [ArgNode 0; ArgConst (CInt 1)])).
  - reflexivity.
  - reflexivity.
  - vm_compute; reflexivity.
  - vm_compute; reflexivity.
  - vm_compute; reflexivity.
Defined.

(** ** What the rewritten code refers to *)

Section resolves.
Context `{Collaborators}.

Lemma wrap_local_captures name value s v s' :
  wrap_local name value s = Ok (v, s') →
  f_globals s' = f_globals s ∧
  (graphargs s' = graphargs s ∨
   graphargs s' = graphargs s ++ [LocalArg name] ∧ ∃ id, value = PyTensor id).
Proof.
  destruct value as [c| | | |]; simpl.
  - destruct c; try discriminate; intros Hw; inv_M; auto.
  - intros Hw. inv_M.
    match goal with Hc : create_graph_input _ _ = Ok _ |- _ =>
      apply create_graph_input_Ok in Hc as (pre & post & _ & -> & _) end.
    simpl. eauto.
  - unfold next_cnt. intros Hw. inv_M. simpl. auto.
  - discriminate.
  - discriminate.
Qed.

Lemma wrap_locals_captures f_locals names acc s locals s' :
  wrap_locals f_locals names acc s = Ok (locals, s') →
  f_globals s' = f_globals s ∧
  ∃ new, graphargs s' = graphargs s ++ new ∧
         Forall (λ a, ∃ k id, a = LocalArg k ∧ k ∈ names ∧
                              f_locals !! k = Some (PyTensor id)) new.
Proof.
  revert acc s. induction names as [|k names IH]; simpl; intros acc s Hw.
  - inv_M. split; [done|]. exists []. by rewrite app_nil_r.
  - assert (∀ new,
              Forall (λ a, ∃ k0 id, a = LocalArg k0 ∧ k0 ∈ names ∧
                                    f_locals !! k0 = Some (PyTensor id)) new →
              Forall (λ a, ∃ k0 id, a = LocalArg k0 ∧ k0 ∈ k :: names ∧
                                    f_locals !! k0 = Some (PyTensor id)) new)
      as Hweak.
    { intros new Hnew. eapply Forall_impl; [exact Hnew|].
      intros a (k0 & id & -> & ? & ?). exists k0, id.
      split; [done|]. split; [by right|done]. }
    destruct (f_locals !! k) as [value|] eqn:Hk.
    + inv_M.
      match goal with Hl : wrap_local _ _ _ = Ok _ |- _ =>
        apply wrap_local_captures in Hl as [Hgl Hga] end.
      match goal with Hl : wrap_locals _ _ _ _ = Ok _ |- _ =>
        apply IH in Hl as (Hgl' & new & Hga' & Hnew) end.
      split; [congruence|].
      destruct Hga as [Hga|[Hga [id ->]]]; rewrite Hga in Hga'.
      * exists new. split; [done|by apply Hweak].
      * exists (LocalArg k :: new). rewrite Hga', <- app_assoc.
        split; [done|]. constructor; [|by apply Hweak].
        exists k, id. split; [done|]. split; [by left|done].
    + apply IH in Hw as (Hgl' & new & Hga' & Hnew).
      split; [done|]. exists new. split; [done|by apply Hweak].
Qed.

Lemma POP_JUMP_IF_FALSE_globals inst s s' :
  POP_JUMP_IF_FALSE inst s = Ok (tt, s') → f_globals s' = f_globals s.
Proof.
  unfold POP_JUMP_IF_FALSE. intros Hj. inv_M.
  match goal with H : context [match ?v with ConstantVariable _ _ _ => _ | _ => _ end] |- _ =>
    destruct v; try discriminate end.
  simpl in *. destruct (negb _); [|by inv_M].
  match goal with H : jump _ _ = Ok _ |- _ =>
    apply jump_Ok in H as (t & _ & _ & ->) end.
  done.
Qed.

Lemma RETURN_VALUE_globals inst s s' :
  RETURN_VALUE inst s = Ok (tt, s') →
  f_globals s' =
    <[unique_id "__translated_fn" := PyCompiled (unique_id "__translated_fn")]>
      (f_globals s).
Proof.
  unfold RETURN_VALUE. intros Hr. inv_M. simpl in *.
  match goal with H : stack s = ?v :: _ |- _ => destruct v; try discriminate end;
    simpl in *; destruct state; try discriminate; inv_M.
  unfold create_node, create_load_global in *. inv_M. simpl in *.
  match goal with H : load_each _ _ = Ok _ |- _ =>
    apply load_each_Ok in H as [-> Hloads] end.
  done.
Qed.

Lemma run_globals fuel s s' :
  run fuel s = Some (Ok s') →
  f_globals s' =
    <[unique_id "__translated_fn" := PyCompiled (unique_id "__translated_fn")]>
      (f_globals s).
Proof.
  revert s. induction fuel as [|fuel IH]; intros s; [done|].
  simpl. destruct (step s) as [[b s1]|e] eqn:Hstep; [|done].
  apply step_Ok in Hstep as (inst & h & Hi & Hh & Hrun & ->).
  apply handler_of_cases in Hh as [[Hn ->]|[[Hn ->]|(Hj & Hr & name' & Hin)]].
  - rewrite Hn. simpl. intros ->%IH.
    by apply POP_JUMP_IF_FALSE_globals in Hrun as ->.
  - rewrite Hn. simpl. intros [= <-].
    by apply RETURN_VALUE_globals in Hrun.
  - apply String.eqb_neq in Hr as ->. simpl. intros ->%IH.
    apply (plain_handlers_frames _ _ _ Hin) in Hrun.
    destruct Hrun as [_ _ _ _ _ _ _ Hg _]. simpl in Hg. by rewrite Hg.
Qed.

End resolves.

(** X21: what the rewritten code refers to is there. A successful trace
    changes the globals of the frame in one way: it binds the compiled
    callable to the fresh name that the first instruction of the rewritten
    stream loads. And every captured argument, which that stream loads as a
    local, is a name of the code that the frame binds to a tensor. *)
Theorem rewritten_code_resolves `{Collaborators} frame fuel s0 s' :
  init_of frame = Ok s0 →
  run fuel s0 = Some (Ok s') →
  let name := unique_id "__translated_fn" in
  f_globals s' = <[name := PyCompiled name]> (frame_globals frame) ∧
  f_globals s' !! name = Some (PyCompiled name) ∧
  Forall (λ a, ∃ k id, a = LocalArg k ∧
                       k ∈ co_varnames (co_options (frame_code frame)) ∧
                       frame_locals frame !! k = Some (PyTensor id))
    (graphargs s').
Proof.
  intros Hinit Hrun name.
  unfold init_of, InstructionTracer_init in Hinit.
  destruct (wrap_locals _ _ _ _) as [[locals s]|] eqn:Hw; [|done].
  injection Hinit as <-.
  apply wrap_locals_captures in Hw as (Hgl & new & Hga & Hnew). simpl in *.
  pose proof (run_globals _ _ _ Hrun) as Hgl'. simpl in Hgl'.
  rewrite Hgl in Hgl'. fold name in Hgl'.
  split; [done|]. split; [rewrite Hgl'; apply lookup_insert_eq|].
  destruct (run_return _ _ _ Hrun)
    as (sr & Hsr & _ & _ & _ & (? & ? & ? & ? & ? & _ & _ & _ & Hga' & _)).
  simpl in Hsr. by rewrite Hga', Hsr, Hga.
Qed.

Lemma rewritten_code_resolves_witness :
  let name := @unique_id sample_collaborators "__translated_fn" in
  f_globals traced_poly = <[name := PyCompiled name]> (frame_globals frame_poly) ∧
  f_globals traced_poly !! name = Some (PyCompiled name) ∧
  Forall (λ a, ∃ k id, a = LocalArg k ∧
                       k ∈ co_varnames (co_options (frame_code frame_poly)) ∧
                       frame_locals frame_poly !! k = Some (PyTensor id))
    (graphargs traced_poly).
Proof.
  apply (@rewritten_code_resolves sample_collaborators frame_poly 9 init_poly
           traced_poly).
  - vm_compute; reflexivity.
  - vm_compute; reflexivity.
Defined.

(** ** Operators *)


